(** * hh_auto_apply: the application workflow, embedded and verified

    A shallow embedding of the Python package [hh_auto_apply]:

    - [PyStr]: the [str] methods the code uses;
    - [Utils]: [utils.extract_vacancy_id] (regular expression search and
      [str.split]);
    - [Browser]: the calls the code makes on the browser, the clock and the
      database, and the state-and-exception monad the code is written in;
    - [Client]: the methods of [client.HHClient], over an arbitrary world;
    - [Refactored]: [add_cover_letter_and_submit] as the one-file version
      hh_auto_apply_refactored.py has it;
    - [App]: [persistence.SeenRepo] and the loop over the links of
      [app.App.run];
    - [Logic]: specifications of runs by the events they log;
    - [Site]: a concrete site to run the code on.

    The properties follow: [UtilsFacts], [LogicFacts], [ClientFacts],
    [WorkflowFacts], [AppFacts].

    A Python [str] is modelled by [string]: a sequence of code points below
    256.  On these, the class [\d] of [re] is exactly [0-9] and [str.strip]
    removes the code points 9-13, 28-32, 133 and 160.  Logging is left out;
    sleeping is a call during which the world may change, and one that may
    raise when its length comes from the configuration. *)

From Stdlib Require Import String Ascii List Bool Arith Lia.
From stdpp Require Import gmap strings.
Import ListNotations.
Local Open Scope string_scope.
Local Open Scope nat_scope.

(** ** Python strings *)

Module PyStr.

(** [s.split(sep)] for a one-character separator: never the empty list. *)
Fixpoint split (sep : ascii) (s : string) : list string :=
  match s with
  | EmptyString => [""]
  | String c s' =>
      if Ascii.eqb c sep then "" :: split sep s'
      else match split sep s' with
           | h :: t => String c h :: t
           | [] => [String c ""]
           end
  end.

(** [c in s] for a character. *)
Fixpoint has_char (c : ascii) (s : string) : bool :=
  match s with
  | EmptyString => false
  | String a s' => Ascii.eqb a c || has_char c s'
  end.

(** [needle in hay] *)
Fixpoint contains (needle hay : string) : bool :=
  String.prefix needle hay
  || match hay with
     | EmptyString => false
     | String _ hay' => contains needle hay'
     end.

(** [c.isspace()] on code points below 256. *)
Definition is_space (c : ascii) : bool :=
  let n := nat_of_ascii c in
  ((9 <=? n) && (n <=? 13)) || ((28 <=? n) && (n <=? 32))
  || (n =? 133) || (n =? 160).

Fixpoint lstrip (s : string) : string :=
  match s with
  | String c s' => if is_space c then lstrip s' else s
  | EmptyString => ""
  end.

Fixpoint rstrip (s : string) : string :=
  match s with
  | String c s' =>
      match rstrip s' with
      | EmptyString => if is_space c then "" else String c ""
      | r => String c r
      end
  | EmptyString => ""
  end.

(** [s.strip()] *)
Definition strip (s : string) : string := lstrip (rstrip s).

(** [c.lower()] on code points below 256: [A-Z] and the upper-case letters
    of Latin-1 (192-222 but the multiplication sign 215). *)
Definition lower_char (c : ascii) : ascii :=
  let n := nat_of_ascii c in
  if ((65 <=? n) && (n <=? 90))
     || ((192 <=? n) && (n <=? 222) && negb (n =? 215))
  then ascii_of_nat (n + 32) else c.

(** [s.lower()] *)
Fixpoint lower (s : string) : string :=
  match s with
  | String c s' => String (lower_char c) (lower s')
  | EmptyString => ""
  end.

(** Truth value of a [str]: non-empty. *)
Definition truthy (s : string) : bool :=
  match s with EmptyString => false | _ => true end.

(** [s[:n]] *)
Definition slice_to (n : nat) (s : string) : string := String.substring 0 n s.

End PyStr.

(** ** utils.py *)

Module Utils.
Import PyStr.

(** [\d] on code points below 256. *)
Definition is_digit (c : ascii) : bool :=
  (48 <=? nat_of_ascii c) && (nat_of_ascii c <=? 57).

(** The greedy group [(\d+)]: the longest run of digits at the start. *)
Fixpoint take_digits (s : string) : string :=
  match s with
  | String c s' => if is_digit c then String c (take_digits s') else ""
  | EmptyString => ""
  end.

(** Matching a literal at the start of [s]; the rest of [s] on success. *)
Fixpoint strip_prefix (p s : string) : option string :=
  match p with
  | EmptyString => Some s
  | String a p' =>
      match s with
      | String b s' => if Ascii.eqb a b then strip_prefix p' s' else None
      | EmptyString => None
      end
  end.

(** [VAC_ID_RE = re.compile(r"/vacancy/(\d+)")], tried at the start of [s];
    the result is [group(1)]. *)
Definition VAC_ID_RE_match (s : string) : option string :=
  match strip_prefix "/vacancy/" s with
  | Some rest =>
      match take_digits rest with
      | EmptyString => None
      | d => Some d
      end
  | None => None
  end.

(** [VAC_ID_RE.search(s)]: the leftmost position where the pattern matches. *)
Fixpoint VAC_ID_RE_search (s : string) : option string :=
  match VAC_ID_RE_match s with
  | Some d => Some d
  | None =>
      match s with
      | EmptyString => None
      | String _ s' => VAC_ID_RE_search s'
      end
  end.

(** [m.group(1) if m else url.split("/")[-1].split("?")[0]] *)
Definition extract_vacancy_id (url : string) : string :=
  match VAC_ID_RE_search url with
  | Some g => g
  | None => List.hd "" (split "?" (List.last (split "/" url) ""))
  end.

(** The URL without its query string, [url.split("?")[0]], as
    [client.list_vacancy_links_on_page] strips it. *)
Definition strip_query (url : string) : string := List.hd "" (split "?" url).

(** The query string: what follows the first ["?"] (empty when there is
    none). *)
Fixpoint query_of (url : string) : string :=
  match url with
  | EmptyString => ""
  | String c s' => if Ascii.eqb c "?" then s' else query_of s'
  end.

(** The specification's wording of the fallback: the last non-empty segment
    of the path, the path being the URL without its query string. *)
Definition spec_last_nonempty_path_segment (url : string) : string :=
  List.last (List.filter (fun seg => negb (String.eqb seg "")) (split "/" (strip_query url))) "".

End Utils.

(** ** The browser and the monad of the client code *)

Module Browser.

(** domain.py *)
Inductive ApplyResult := SUCCESS | SKIPPED_ALREADY_APPLIED | ERROR.

(** The constants of selectors.py that client.py reads, and the selector
    literals written in client.py itself. *)
Inductive Selector :=
  | APPLY_BUTTON_ROLE | APPLY_LINK_ROLE | APPLY_BUTTON_TOP | APPLY_BUTTON_SIDEBAR
  | VACANCY_TITLE_H1 | VACANCY_TITLE_QA | VACANCY_TITLE_VIEW_QA | VACANCY_TITLE_CLASS
  | RESUME_SELECT_ITEM | RESUME_SELECT_ITEM_IN_GROUP | RESUME_GENERIC_QA
  | RESUME_LABEL_WITH_TEXT | RESUME_FALLBACK_INPUT | RESUME_FALLBACK_RADIO
  | COVER_LETTER_TOGGLE | COVER_LETTER_TEXTAREA | COVER_LETTER_TEXTAREA_PLACEHOLDER
  | COVER_LETTER_TEXTAREA_GENERIC
  | CONSENT_CHECKBOX_AGREEMENT | CONSENT_CHECKBOX_QA | CONSENT_CHECKBOX_REQUIRED
  | SUBMIT_BUTTON | SUBMIT_BUTTON_TEXT_1 | SUBMIT_BUTTON_TEXT_2 | SUBMIT_BUTTON_GENERIC_QA
  | FOREIGN_COUNTRY_MODAL_BUTTON       (* read by client.py, see [Undeclared] *)
  | INPUT_RADIO                        (* 'input[type="radio"]' *)
  | DESCRIPTION (i : nat)              (* description_selectors[i] *)
  | XPATH_RESUME_DIV (mask : string)   (* textual[0], formatted with the mask *)
  | XPATH_RESUME_LABEL (mask : string) (* textual[1] *)
  | XPATH_RESUME_LINK (mask : string). (* textual[2] *)

(** Playwright locators, as client.py builds them. *)
Inductive Locator :=
  | Loc (sel : Selector)               (* page.locator(sel) *)
  | ByRole (role name : string)        (* page.get_by_role(role, name=name) *)
  | ByText (text : string)             (* page.get_by_text(text, exact=False) *)
  | First (l : Locator)                (* l.first *)
  | Nth (l : Locator) (i : nat)        (* l.nth(i) *)
  | Sub (l : Locator) (sel : Selector). (* l.locator(sel) *)

(** Statements run on the seen-store (persistence.py). *)
Inductive Sql :=
  | SELECT_SEEN (vac_id : string)
  | INSERT_OR_IGNORE (vac_id : string) (first_seen_at : Z)
  | DELETE_BEFORE (cutoff : Z).

(** Calls that may raise: Playwright, the letter generator, sqlite3, csv,
    and the pause whose length comes from the configuration. *)
Inductive op : Type -> Type :=
  | NewPage : op unit                                   (* context.new_page() *)
  | OnConsole : op unit                                 (* page.on("console", ...) *)
  | SetDefaultTimeout (ms : Z) : op unit
  | Goto (url : string) (timeout : Z) : op unit
  | Title : op string                                   (* page.title() *)
  | Close : op unit                                     (* page.close() *)
  | Screenshot (tag : string) : op unit                 (* page.screenshot(path=hh_<tag>_<ts>.png) *)
  | WaitForTimeout (ms : Z) : op unit
  | KeyboardPress (key : string) : op unit
  | WaitForVisible (l : Locator) (timeout : Z) : op unit (* l.wait_for(state="visible") *)
  | Count (l : Locator) : op nat
  | GetAttribute (l : Locator) (name : string) : op (option string)
  | InnerText (l : Locator) : op string
  | InputValue (l : Locator) : op string
  | IsVisible (l : Locator) : op bool
  | IsChecked (l : Locator) : op bool
  | Click (l : Locator) (force : bool) : op unit
  | Check (l : Locator) : op unit
  | Fill (l : Locator) (text : string) : op unit
  | ScrollIntoViewIfNeeded (l : Locator) : op unit
  | GenerateCoverLetter (job_description api_key : string) : op string
  | Connect : op unit                                   (* sqlite3.connect(db_path) *)
  | Execute (stmt : Sql) : op unit                      (* c.execute(...) *)
  | Commit : op unit                                    (* c.commit(), also on leaving [with] *)
  | CsvAppend (title link : string) : op unit
  | Pause : op unit.                                    (* the sleep of human_pause(cfg) *)

(** Calls that return without raising; the world may change meanwhile. *)
Inductive query : Type -> Type :=
  | Sleep : query unit                  (* time.sleep of a length that is not negative *)
  | UtcNow : query Z                    (* datetime.utcnow(), in microseconds *)
  | StopFlag : query bool.              (* App._stop, set by a signal handler *)

Inductive exn :=
  | PWTimeoutError                      (* playwright.sync_api.TimeoutError *)
  | TargetClosedError                   (* playwright's TargetClosedError *)
  | PlaywrightError (msg : string)      (* any other playwright Error *)
  | NameError (name : string)
  | AttributeError (attr : string)
  | UnboundLocalError (name : string)
  | OtherException (tag : nat).         (* any other subclass of Exception *)

Inductive result (A : Type) :=
  | Ok (a : A)
  | Raise (e : exn).
Arguments Ok {A} a.
Arguments Raise {A} e.

(** What the code did and what came back; logs are kept newest first. *)
Inductive event :=
  | Called : forall T, op T -> result T -> event
  | Asked : forall T, query T -> T -> event.
Arguments Called {T} _ _.
Arguments Asked {T} _ _.

(** The world the program runs in: the browser with the site behind it, the
    clock, the operator, the file system.  Nothing is assumed of it. *)
Record World := {
  W :> Type;
  handle : forall T, op T -> W -> result T * W;
  observe : forall T, query T -> W -> T * W
}.
Arguments handle w {T} _ _.
Arguments observe w {T} _ _.
Existing Class World.

Section Monad.
Context {Wd : World}.

(** The state threaded through the code: the world, the log of calls and
    the table [seen_vacancies (id TEXT PRIMARY KEY, first_seen_at)]. *)
Record state := {
  world : Wd;
  log : list event;
  seen : gmap string Z
}.

Definition M (A : Type) : Type := state -> result A * state.

Definition ret {A} (a : A) : M A := fun s => (Ok a, s).

Definition raise {A} (e : exn) : M A := fun s => (Raise e, s).

Definition bind {A B} (m : M A) (k : A -> M B) : M B :=
  fun s =>
    match m s with
    | (Ok a, s') => k a s'
    | (Raise e, s') => (Raise e, s')
    end.

(** [try: m  except Exception as e: h e] *)
Definition try_except {A} (m : M A) (h : exn -> M A) : M A :=
  fun s =>
    match m s with
    | (Ok a, s') => (Ok a, s')
    | (Raise e, s') => h e s'
    end.

(** [try: m  finally: f], where [f] itself does not raise. *)
Definition try_finally {A} (m : M A) (f : M unit) : M A :=
  fun s =>
    match m s with
    | (r, s') => (r, snd (f s'))
    end.

Definition perform {T} (o : op T) : M T :=
  fun s =>
    let (r, w) := handle Wd o (world s) in
    (r, {| world := w; log := Called o r :: log s; seen := seen s |}).

Definition ask {T} (q : query T) : M T :=
  fun s =>
    let (r, w) := observe Wd q (world s) in
    (Ok r, {| world := w; log := Asked q r :: log s; seen := seen s |}).

Definition get_seen : M (gmap string Z) := fun s => (Ok (seen s), s).

Definition put_seen (t : gmap string Z) : M unit :=
  fun s => (Ok tt, {| world := world s; log := log s; seen := t |}).

End Monad.

Declare Scope prog_scope.
Delimit Scope prog_scope with prog.
Notation "x <- m ;; k" := (bind m (fun x => k))
  (at level 100, m at next level, right associativity) : prog_scope.
Notation "m ;; k" := (bind m (fun _ => k))
  (at level 100, right associativity) : prog_scope.

End Browser.

(** ** client.py: class HHClient *)

Module Client.
Import PyStr Browser.
Local Open Scope prog_scope.

(** config.py, class Config: the fields the modelled code reads.  (The
    others configure the search, the pauses, the paths and the browser.) *)
Record Config := {
  max_applies : Z;
  seen_ttl_days : Z;
  resume_match : string;
  fail_if_resume_not_found : bool;
  require_cover_letter : bool
}.

(** client.py reads [cfg.use_ai_cover_letter], [cfg.openrouter_api_key] and
    [Selectors.FOREIGN_COUNTRY_MODAL_BUTTON]; config.py and selectors.py
    declare none of them, so that reading them raises [AttributeError].
    [cfg_ai = None] and [modal_declared = false] are the package as it
    stands; the other values are a package where they have been added. *)
Record AiFields := {
  use_ai_cover_letter : bool;
  openrouter_api_key : string
}.

Record Undeclared := {
  cfg_ai : option AiFields;
  modal_declared : bool
}.

(** The names bound at module level in client.py (its imports and its
    class), and the built-in [Exception]. *)
Definition module_globals : list string :=
  [ "annotations"; "datetime"; "Path"; "Dict"; "List"; "urlencode"; "logger";
    "BrowserContext"; "Page"; "PWTimeoutError"; "requests"; "json"; "Config";
    "ApplyResult"; "Selectors"; "human_pause"; "HHClient"; "Exception" ].

(** A page object; the local [page] of [apply_to_vacancy] starts as [None]. *)
Inductive Page := ThePage.

Section HHClient.
Context {Wd : World}.
Variable cfg : Config.
Variable und : Undeclared.

(** A [for] loop whose body may [return v] ([Some v]) or go on ([None]:
    the end of the body, or [continue]). *)
Fixpoint for_each {A R} (xs : list A) (body : A -> M (option R)) : M (option R) :=
  match xs with
  | [] => ret None
  | x :: xs' =>
      r <- body x ;;
      match r with
      | Some v => ret (Some v)
      | None => for_each xs' body
      end
  end.

(** [range(n)] *)
Definition range (n : nat) : list nat := seq 0 n.

(** utils.human_pause(cfg):
    [time.sleep(random.uniform(cfg.min_sleep, cfg.max_sleep))].  config.py
    takes both bounds from the environment as they come, and [time.sleep]
    raises [ValueError] on a length that is negative or not a number, and
    [OverflowError] on an infinite one: the call may raise. *)
Definition human_pause : M unit := perform Pause.

(** utils.human_pause(cfg, a, b) with the bounds written at the call, in
    milliseconds here: the length drawn lies between them, so it is not
    negative and [time.sleep] returns. *)
Definition human_pause_between (a b : N) : M unit := ask Sleep.

(** Evaluating a global name. *)
Definition load_global (name : string) : M unit :=
  if existsb (String.eqb name) module_globals then ret tt
  else raise (NameError name).

Definition is_visible (locator : Locator) (timeout : Z) : M bool :=
  try_except
    (perform (WaitForVisible (First locator) timeout) ;; ret true)
    (fun _ => ret false).

Definition make_shot (page : option Page) (tag : string) : M unit :=
  try_except
    (match page with
     | Some _ => perform (Screenshot tag)
     | None => raise (AttributeError "screenshot")
     end)
    (fun _ => ret tt).

Definition get_apply_button : M (option Locator) :=
  let candidates :=
    [ ByRole "button" "Откликнуться";
      ByRole "link" "Откликнуться";
      Loc APPLY_BUTTON_TOP;
      Loc APPLY_BUTTON_SIDEBAR;
      Loc APPLY_BUTTON_ROLE;
      Loc APPLY_LINK_ROLE ] in
  for_each candidates (fun c =>
    v <- is_visible c 900 ;;
    if v then ret (Some (First c)) else ret None).

(** Selectors.ALREADY_APPLIED_TEXT *)
Definition ALREADY_APPLIED_TEXT : list string :=
  [ "Отклик отправлен"; "Вы откликнулись"; "Отклик уже отправлен";
    "Отклик отправлен работодателю" ].

Definition already_applied : M bool :=
  r <- for_each ALREADY_APPLIED_TEXT (fun txt =>
         v <- is_visible (ByText txt) 500 ;;
         if v then ret (Some true) else ret None) ;;
  match r with
  | Some b => ret b
  | None =>
      b <- get_apply_button ;;
      ret (match b with None => true | Some _ => false end)
  end.

(** The activation shared by both passes of [select_specific_resume]:
    check the radio inside [loc] when there is a visible one, else click
    [target]. *)
Definition check_radio_or_click (loc target : Locator) : M unit :=
  let radio := First (Sub loc INPUT_RADIO) in
  n <- perform (Count radio) ;;
  v <- (if 0 <? n then perform (IsVisible radio) else ret false) ;;
  if v then perform (Check radio) else perform (Click target false).

Definition select_specific_resume (mask : string) : M bool :=
  let containers :=
    [ RESUME_SELECT_ITEM; RESUME_SELECT_ITEM_IN_GROUP; RESUME_GENERIC_QA;
      RESUME_LABEL_WITH_TEXT ] in
  let textual :=
    [ XPATH_RESUME_DIV mask; XPATH_RESUME_LABEL mask; XPATH_RESUME_LINK mask ] in
  r <- for_each textual (fun sel =>
         let loc := Loc sel in
         n <- perform (Count loc) ;;
         v <- (if 0 <? n then is_visible loc 700 else ret false) ;;
         if v then
           try_except
             (check_radio_or_click loc (First loc) ;; ret (Some true))
             (fun _ => ret None)
         else ret None) ;;
  match r with
  | Some b => ret b
  | None =>
      r <- for_each containers (fun sel =>
             let items := Loc sel in
             c <- perform (Count items) ;;
             for_each (range (Nat.min c 10)) (fun i =>
               let item := Nth items i in
               try_except
                 (v <- is_visible item 400 ;;
                  if negb v then ret None
                  else
                    t <- perform (InnerText item) ;;
                    let text := lower (strip t) in
                    if contains mask text then
                      check_radio_or_click item item ;; ret (Some true)
                    else ret None)
                 (fun _ => ret None))) ;;
      match r with
      | Some b => ret b
      | None => ret false
      end
  end.

Definition select_any_resume_if_needed : M bool :=
  let candidates :=
    [ RESUME_SELECT_ITEM; RESUME_FALLBACK_INPUT; RESUME_FALLBACK_RADIO ] in
  r <- for_each candidates (fun sel =>
         let loc := Loc sel in
         n <- perform (Count loc) ;;
         v <- (if 0 <? n then is_visible loc 800 else ret false) ;;
         if v then
           try_except
             (let el := First loc in
              a <- perform (GetAttribute el "type") ;;
              let t := lower (match a with Some x => x | None => "" end) in
              (if String.eqb t "radio" then perform (Check el)
               else perform (Click el false)) ;;
              ret (Some true))
             (fun _ => ret None)
         else ret None) ;;
  match r with
  | Some b => ret b
  | None => ret false
  end.

Definition check_consents_if_needed : M unit :=
  let consent_candidates :=
    [ CONSENT_CHECKBOX_AGREEMENT; CONSENT_CHECKBOX_QA; CONSENT_CHECKBOX_REQUIRED ] in
  try_except
    (for_each consent_candidates (fun sel =>
       let boxes := Loc sel in
       c <- perform (Count boxes) ;;
       for_each (R := unit) (range (Nat.min c 6)) (fun i =>
         let box := Nth boxes i in
         try_except
           (v <- is_visible box 300 ;;
            checked <- (if v then perform (IsChecked box) else ret true) ;;
            (if v && negb checked then perform (Check box) else ret tt) ;;
            ret None)
           (fun _ => ret None))) ;;
     ret tt)
    (fun _ => ret tt).

(** Lines 289-301: reveal the cover-letter field when a toggle shows. *)
Definition reveal_cover_letter : M unit :=
  try_except
    (let togglers :=
       [ ByRole "button" "Добавить сопроводительное";
         ByText "Добавить сопроводительное";
         Loc COVER_LETTER_TOGGLE ] in
     for_each togglers (fun t =>
       v <- is_visible t 800 ;;
       if v then
         perform (Click (First t) false) ;;
         human_pause_between 300 600 ;;
         ret (Some tt)                       (* break *)
       else ret None) ;;
     ret tt)
    (fun _ => ret tt).

Definition textarea_selectors : list Selector :=
  [ COVER_LETTER_TEXTAREA; COVER_LETTER_TEXTAREA_PLACEHOLDER;
    COVER_LETTER_TEXTAREA_GENERIC ].

(** Lines 310-323: the body of [for sel in textarea_selectors]; [Some true]
    is [return True]. *)
(** Lines 314-318: clear the textarea, write the text, read it back. *)
Definition write_and_read_back (ta : Locator) (cover_text : string) : M string :=
  perform (Click ta false) ;;
  perform (KeyboardPress "Control+A") ;;
  perform (Fill ta cover_text) ;;
  human_pause_between 200 400 ;;
  perform (InputValue ta).

Definition try_textarea (cover_text : string) (sel : Selector) : M (option bool) :=
  let ta := First (Loc sel) in
  try_except
    (v <- is_visible ta 900 ;;
     if negb v then ret None
     else
       raw <- write_and_read_back ta cover_text ;;
       let val := strip raw in
       if Nat.min 20 (String.length cover_text / 2) <=? String.length val
       then ret (Some true)
       else ret None)
    (fun _ => ret None).

(** Lines 309-324: the body of [for attempt in range(3)]. *)
Definition fill_attempt (cover_text : string) : M (option bool) :=
  r <- for_each textarea_selectors (try_textarea cover_text) ;;
  match r with
  | Some b => ret (Some b)
  | None => human_pause_between 400 800 ;; ret None
  end.

Definition fill_cover_letter_with_verification (cover_text : string) : M bool :=
  reveal_cover_letter ;;
  r <- for_each (range 3) (fun attempt => fill_attempt cover_text) ;;
  match r with
  | Some b => ret b
  | None => ret false
  end.

Definition submit_candidates : list Selector :=
  [ SUBMIT_BUTTON; SUBMIT_BUTTON_TEXT_1; SUBMIT_BUTTON_TEXT_2;
    SUBMIT_BUTTON_GENERIC_QA ].

(** Truth value of an attribute read: [None] and [""] are false. *)
Definition attr_truthy (a : option string) : bool :=
  match a with
  | Some v => truthy v
  | None => false
  end.

(** [aria is None or aria == "false"] *)
Definition aria_enabled (aria : option string) : bool :=
  match aria with
  | None => true
  | Some v => String.eqb v "false"
  end.

(** Lines 355-363: the body of [for sel in submit_candidates]; [Some btn]
    is [return btn]. *)
Definition try_submit_candidate (sel : Selector) : M (option Locator) :=
  let btn := First (Loc sel) in
  try_except
    (v <- is_visible btn 900 ;;
     if v then
       disabled <- perform (GetAttribute btn "disabled") ;;
       aria <- perform (GetAttribute btn "aria-disabled") ;;
       if negb (attr_truthy disabled) && aria_enabled aria
       then ret (Some btn)
       else ret None
     else ret None)
    (fun _ => ret None).

(** The closure [find_enabled_submit] of [add_cover_letter_and_submit]. *)
Definition find_enabled_submit : M (option Locator) :=
  for_each submit_candidates try_submit_candidate.

(** The body of both [try] blocks of the submission loop: click, wait,
    look for the confirmation, wait and look once more. *)
Definition click_and_verify (btn : Locator) : M (option bool) :=
  perform (Click btn true) ;;
  perform (WaitForTimeout 1500) ;;
  a <- already_applied ;;
  if a then ret (Some true)
  else
    perform (WaitForTimeout 1500) ;;
    a <- already_applied ;;
    if a then ret (Some true) else ret None.

(** One turn of [for _ in range(3)] in [add_cover_letter_and_submit]. *)
Definition submit_cycle : M (option bool) :=
  btn <- find_enabled_submit ;;
  match btn with
  | Some btn =>
      try_except (perform (ScrollIntoViewIfNeeded btn)) (fun _ => ret tt) ;;
      human_pause ;;
      try_except
        (click_and_verify btn)
        (fun _ =>
           human_pause_between 2000 4000 ;;
           try_except (click_and_verify btn) (fun _ => ret None))
  | None =>
      check_consents_if_needed ;;
      human_pause_between 1000 2000 ;;
      ret None
  end.

(** Lines 335-405 of [add_cover_letter_and_submit]: what follows the
    cover letter. *)
Definition select_resume_and_submit : M bool :=
  selected_exact <- select_specific_resume (resume_match cfg) ;;
  (if negb selected_exact then
     if fail_if_resume_not_found cfg then
       make_shot (Some ThePage) "resume_not_found"
       (* no return here: the code goes on *)
     else
       select_any_resume_if_needed ;; ret tt
   else ret tt) ;;
  check_consents_if_needed ;;
  r <- for_each (range 3) (fun _ => submit_cycle) ;;
  match r with
  | Some b => ret b
  | None =>
      make_shot (Some ThePage) "submit_fail" ;;
      ret false
  end.

Definition add_cover_letter_and_submit (cover_text : string) : M bool :=
  letter_ok <- fill_cover_letter_with_verification cover_text ;;
  if require_cover_letter cfg && negb letter_ok then
    make_shot (Some ThePage) "no_cover_letter" ;;
    ret false
  else
    select_resume_and_submit.

(** Reading a field that config.py does not declare. *)
Definition cfg_ai_field {A} (name : string) (f : AiFields -> A) : M A :=
  match cfg_ai und with
  | Some a => ret (f a)
  | None => raise (AttributeError name)
  end.

(** Reading [Selectors.FOREIGN_COUNTRY_MODAL_BUTTON]. *)
Definition Selectors_FOREIGN_COUNTRY_MODAL_BUTTON : M Selector :=
  if modal_declared und then ret FOREIGN_COUNTRY_MODAL_BUTTON
  else raise (AttributeError "FOREIGN_COUNTRY_MODAL_BUTTON").

Definition _get_vacancy_description : M string :=
  r <- for_each (List.map DESCRIPTION (range 8)) (fun sel =>
         try_except
           (let desc_element := Loc sel in
            n <- perform (Count desc_element) ;;
            v <- (if 0 <? n then is_visible desc_element 500 else ret false) ;;
            if v then
              text <- perform (InnerText desc_element) ;;
              if truthy text && (50 <? String.length (strip text))
              then ret (Some (strip text))
              else ret None
            else ret None)
           (fun _ => ret None)) ;;
  match r with
  | Some text => ret text
  | None => ret ""
  end.

(** Lines 418-438 of [apply_to_vacancy]: the display title. *)
Definition read_title : M string :=
  let title_selectors :=
    [ VACANCY_TITLE_H1; VACANCY_TITLE_QA; VACANCY_TITLE_VIEW_QA;
      VACANCY_TITLE_CLASS ] in
  r <- for_each title_selectors (fun sel =>
         try_except
           (let loc := Loc sel in
            n <- perform (Count loc) ;;
            if 0 <? n then
              txt <- perform (InnerText (First loc)) ;;
              let t := strip txt in
              if truthy t then ret (Some t) else ret None
            else ret None)
           (fun _ => ret None)) ;;
  match r with
  | Some t => ret t
  | None =>
      try_except (t <- perform Title ;; ret (strip t)) (fun _ => ret "")
  end.

(** Lines 411-438 of [apply_to_vacancy] as they run when nothing raises:
    the listing is opened and its title read. *)
Definition opened (url : string) : M string :=
  perform NewPage ;;
  perform OnConsole ;;
  perform (SetDefaultTimeout 30000) ;;
  perform (Goto url 30000) ;;
  human_pause ;;
  read_title.

(** Lines 440-480 of [apply_to_vacancy]: from the already-applied test to
    the [return] of the outcome. *)
Definition process_listing (title cover_text : string)
  : M (ApplyResult * string) :=
  a <- already_applied ;;
  if a then ret (SKIPPED_ALREADY_APPLIED, title)
  else
    apply_btn <- get_apply_button ;;
    use_ai <- cfg_ai_field "use_ai_cover_letter" use_ai_cover_letter ;;
    with_ai <- (if use_ai then
                  key <- cfg_ai_field "openrouter_api_key" openrouter_api_key ;;
                  ret (truthy key)
                else ret false) ;;
    generated_cover_letter <-
      (if with_ai then
         job_description <- _get_vacancy_description ;;
         if truthy job_description then
           key <- cfg_ai_field "openrouter_api_key" openrouter_api_key ;;
           perform (GenerateCoverLetter job_description key)
         else ret ""
       else ret "") ;;
    let final_cover_text :=
      if truthy generated_cover_letter then generated_cover_letter
      else cover_text in
    match apply_btn with
    | Some btn =>
        try_except (perform (Click btn false)) (fun _ => ret tt) ;;
        perform (WaitForTimeout 1500) ;;
        sel <- Selectors_FOREIGN_COUNTRY_MODAL_BUTTON ;;
        let foreign_modal_button := Loc sel in
        v <- is_visible foreign_modal_button 2000 ;;
        if v then
          try_except
            (perform (Click foreign_modal_button false) ;;
             perform (WaitForTimeout 1500))
            (fun _ => ret tt)
        else ret tt
    | None => ret tt
    end ;;
    ok <- add_cover_letter_and_submit final_cover_text ;;
    ret (if ok then SUCCESS else ERROR, title).

(** [return ApplyResult.ERROR, title] in a handler: [title] is a local that
    is unbound until line 413 has run. *)
Definition return_error (title : option string) : M (ApplyResult * string) :=
  match title with
  | Some t => ret (ERROR, t)
  | None => raise (UnboundLocalError "title")
  end.

(** The [except] clauses of [apply_to_vacancy], tried in order on the
    exception [e]; each clause first evaluates the name of its class. *)
Definition except_clauses (page : option Page) (title : option string)
    (url : string) (e : exn) : M (ApplyResult * string) :=
  load_global "PWTimeoutError" ;;
  match e with
  | PWTimeoutError =>
      try_except (make_shot page "vacancy_timeout") (fun _ => ret tt) ;;
      return_error title
  | _ =>
      load_global "TargetClosedError" ;;
      match e with
      | TargetClosedError =>
          try_except (make_shot page "context_closed") (fun _ => ret tt) ;;
          return_error title
      | _ =>
          load_global "TargetClosedError" ;;
          load_global "Exception" ;;
          try_except
            (let slug := slice_to 30 (List.last (split "/" url) "") in
             make_shot page ("error_" ++ slug))
            (fun _ => ret tt) ;;
          return_error title
      end
  end.

(** The [finally] clause: [if page: try: page.close() except ...]. *)
Definition close_page (page : option Page) : M unit :=
  match page with
  | Some _ => try_except (perform Close) (fun _ => ret tt)
  | None => ret tt
  end.

(** [try: m] under the [except] clauses, with the locals [page] and [title]
    as they are while [m] runs. *)
Definition guarded {A} (page : option Page) (title : option string)
    (url : string) (m : M A) (k : A -> M (ApplyResult * string))
  : M (ApplyResult * string) :=
  fun s =>
    match m s with
    | (Ok a, s') => k a s'
    | (Raise e, s') => except_clauses page title url e s'
    end.

Definition apply_to_vacancy (url cover_text : string)
  : M (ApplyResult * string) :=
  guarded None None url (perform NewPage) (fun _ =>
    let page := Some ThePage in
    try_finally
      (guarded page None url (perform OnConsole) (fun _ =>
       guarded page (Some "") url
         (perform (SetDefaultTimeout 30000) ;;
          perform (Goto url 30000) ;;
          human_pause)
         (fun _ =>
       title <- read_title ;;
       guarded page (Some title) url (process_listing title cover_text) ret)))
      (close_page page)).

End HHClient.
End Client.

(** ** hh_auto_apply_refactored.py: the same method in the one-file version *)

Module Refactored.
Import PyStr Browser Client.
Local Open Scope prog_scope.

Section HHClient.
Context {Wd : World}.
Variable app_cfg : Config.

Definition submit_cycle : M (option bool) :=
  btn <- find_enabled_submit ;;
  match btn with
  | Some btn =>
      try_except (perform (ScrollIntoViewIfNeeded btn)) (fun _ => ret tt) ;;
      human_pause ;;
      try_except
        (perform (Click btn false) ;;
         perform (WaitForTimeout 1500) ;;
         a <- already_applied ;;
         if a then ret (Some true)
         else
           perform (WaitForTimeout 1500) ;;
           a <- already_applied ;;
           if a then ret (Some true) else ret None)
        (fun _ => ret None)
  | None =>
      check_consents_if_needed ;;
      human_pause_between 1000 2000 ;;
      ret None
  end.

(** Lines 434-492 of [add_cover_letter_and_submit]: what follows the
    cover letter. *)
Definition select_resume_and_submit : M bool :=
  selected_exact <- select_specific_resume (resume_match app_cfg) ;;
  if negb selected_exact && fail_if_resume_not_found app_cfg then
    make_shot (Some ThePage) "resume_not_found" ;;
    ret false                                   (* return False *)
  else
    (if negb selected_exact then select_any_resume_if_needed ;; ret tt
     else ret tt) ;;
    check_consents_if_needed ;;
    r <- for_each (range 3) (fun _ => submit_cycle) ;;
    match r with
    | Some b => ret b
    | None =>
        make_shot (Some ThePage) "submit_fail" ;;
        ret false
    end.

Definition add_cover_letter_and_submit (cover_text : string) : M bool :=
  letter_ok <- fill_cover_letter_with_verification cover_text ;;
  if require_cover_letter app_cfg && negb letter_ok then
    make_shot (Some ThePage) "no_cover_letter" ;;
    ret false
  else
    select_resume_and_submit.

End HHClient.
End Refactored.

(** ** persistence.py and app.py *)

Module App.
Import PyStr Browser Client.
Local Open Scope prog_scope.

(** domain.py, class Stats *)
Record Stats := {
  found_links : Z;
  skipped_seen : Z;
  skipped_already : Z;
  opened : Z;
  applies_done : Z;
  errors : Z
}.

(** The keys [Stats.bump] is called with in the loop. *)
Inductive StatKey := K_skipped_seen | K_skipped_already | K_opened
                   | K_applies_done | K_errors.

(** [stats.bump(key)]: [setattr(self, key, getattr(self, key) + 1)] *)
Definition bump (key : StatKey) (st : Stats) : Stats :=
  match key with
  | K_skipped_seen =>
      {| found_links := found_links st; skipped_seen := skipped_seen st + 1;
         skipped_already := skipped_already st; opened := opened st;
         applies_done := applies_done st; errors := errors st |}
  | K_skipped_already =>
      {| found_links := found_links st; skipped_seen := skipped_seen st;
         skipped_already := skipped_already st + 1; opened := opened st;
         applies_done := applies_done st; errors := errors st |}
  | K_opened =>
      {| found_links := found_links st; skipped_seen := skipped_seen st;
         skipped_already := skipped_already st; opened := opened st + 1;
         applies_done := applies_done st; errors := errors st |}
  | K_applies_done =>
      {| found_links := found_links st; skipped_seen := skipped_seen st;
         skipped_already := skipped_already st; opened := opened st;
         applies_done := applies_done st + 1; errors := errors st |}
  | K_errors =>
      {| found_links := found_links st; skipped_seen := skipped_seen st;
         skipped_already := skipped_already st; opened := opened st;
         applies_done := applies_done st; errors := errors st + 1 |}
  end%Z.

(** [timedelta(days=1)] in microseconds, the unit of [UtcNow].  The ISO
    strings the table stores are ordered as the instants they denote. *)
Definition day : Z := 86400000000.

Section SeenRepo.
Context {Wd : World}.

(** [with self._conn() as c: body]: connect, run the body, commit on
    leaving. *)
Definition with_conn {A} (body : M A) : M A :=
  perform Connect ;;
  a <- body ;;
  perform Commit ;;
  ret a.

Definition cleanup (ttl_days : Z) : M unit :=
  if (ttl_days <=? 0)%Z then ret tt
  else
    now <- ask UtcNow ;;
    let cutoff := (now - ttl_days * day)%Z in
    with_conn
      (perform (Execute (DELETE_BEFORE cutoff)) ;;
       perform Commit ;;
       t <- get_seen ;;
       put_seen (filter (fun kv => (cutoff <= kv.2)%Z) t)).

Definition is_seen (vac_id : string) : M bool :=
  with_conn
    (perform (Execute (SELECT_SEEN vac_id)) ;;
     t <- get_seen ;;
     ret (match t !! vac_id with Some _ => true | None => false end)).

Definition mark_seen (vac_id : string) : M unit :=
  try_except
    (with_conn
       (now <- ask UtcNow ;;
        perform (Execute (INSERT_OR_IGNORE vac_id now)) ;;
        perform Commit ;;
        t <- get_seen ;;
        put_seen (match t !! vac_id with
                  | Some _ => t
                  | None => <[vac_id := now]> t
                  end)))
    (fun _ => ret tt).

End SeenRepo.

Section Run.
Context {Wd : World}.
Variable cfg : Config.
Variable und : Undeclared.
Variable dry_run : bool.
Variable cover_text : string.

(** The locals of [run] that the loop over the links updates. *)
Record locals := {
  l_applies_done : Z;
  l_stats : Stats
}.

Inductive flow := Break | Next.

(** Lines 108-142 of app.py: the body of [for vurl in links]. *)
Definition loop_body (vurl : string) (l : locals) : M (flow * locals) :=
  stop <- ask StopFlag ;;
  if stop then ret (Break, l)
  else if (max_applies cfg <=? l_applies_done l)%Z then ret (Break, l)
  else
    let vac_id := Utils.extract_vacancy_id vurl in
    was_seen <- is_seen vac_id ;;
    if was_seen then
      ret (Next, {| l_applies_done := l_applies_done l;
                    l_stats := bump K_skipped_seen (l_stats l) |})
    else
      let stats := bump K_opened (l_stats l) in
      rt <- (if dry_run then ret (SUCCESS, "(dry-run)")
             else apply_to_vacancy cfg und vurl cover_text) ;;
      let (result, title) := rt : ApplyResult * string in
      mark_seen vac_id ;;
      l' <- match result with
            | SUCCESS =>
                try_except
                  (perform (CsvAppend (if truthy title then title else vurl) vurl))
                  (fun _ => ret tt) ;;
                ret {| l_applies_done := (l_applies_done l + 1)%Z;
                       l_stats := bump K_applies_done stats |}
            | SKIPPED_ALREADY_APPLIED =>
                ret {| l_applies_done := l_applies_done l;
                       l_stats := bump K_skipped_already stats |}
            | ERROR =>
                ret {| l_applies_done := l_applies_done l;
                       l_stats := bump K_errors stats |}
            end ;;
      human_pause ;;
      ret (Next, l').

(** [for vurl in links: ...] *)
Fixpoint for_links (links : list string) (l : locals) : M locals :=
  match links with
  | [] => ret l
  | vurl :: rest =>
      r <- loop_body vurl l ;;
      match r with
      | (Break, l') => ret l'
      | (Next, l') => for_links rest l'
      end
  end.

(** The loop passes over the listing when it meets it in the state [t]:
    the body ends once [is_seen] has answered, without opening it. *)
Definition passed_over (vurl : string) (t : state) : Prop :=
  forall l t1 t2 b,
    ask StopFlag t = (Ok false, t1) ->
    (l_applies_done l < max_applies cfg)%Z ->
    is_seen (Utils.extract_vacancy_id vurl) t1 = (Ok b, t2) ->
    loop_body vurl l t
    = (Ok (Next, {| l_applies_done := l_applies_done l;
                    l_stats := bump K_skipped_seen (l_stats l) |}), t2).

(** [cleanup] keeps the row of [vac_id] stamped [ts] whenever it runs no
    later than [ttl_days] after [ts]. *)
Definition kept_within_ttl (vac_id : string) (ts : Z) : Prop :=
  forall ttl_days (t t' : state) r,
    cleanup ttl_days t = (r, t') ->
    seen t !! vac_id = Some ts ->
    (fst (observe Wd UtcNow (world t)) - ttl_days * day <= ts)%Z ->
    seen t' !! vac_id = Some ts.

End Run.

(** The counters [run] starts with. *)
Definition no_stats : Stats :=
  {| found_links := 0; skipped_seen := 0; skipped_already := 0; opened := 0;
     applies_done := 0; errors := 0 |}.

End App.

(** ** Specifications of runs *)

Module Logic.
Import PyStr Browser Client.

Section Spec.
Context {Wd : World}.

(** [spec m Q]: every run of [m] only adds events to the log, and the
    events [evs] it adds (newest first) and its result [r] satisfy [Q]. *)
Definition spec {A} (m : M A) (Q : list event -> result A -> Prop) : Prop :=
  forall s r s', m s = (r, s') ->
    exists evs, log s' = (evs ++ log s)%list /\ Q evs r.

(** Every event of a run satisfies [P]. *)
Definition only {A} (P : event -> bool) (m : M A) : Prop :=
  spec m (fun evs _ => forallb P evs = true).

(** At most [n] events of a run satisfy [P]. *)
Definition at_most {A} (n : nat) (P : event -> bool) (m : M A) : Prop :=
  spec m (fun evs _ => length (List.filter P evs) <= n).

(** A run leaves the table of seen listings as it is. *)
Definition keeps_seen {A} (m : M A) : Prop :=
  forall s r s', m s = (r, s') -> seen s' = seen s.

End Spec.

(** The locator a locator was derived from by [.first], [.nth] and
    [.locator]. *)
Fixpoint root (l : Locator) : Locator :=
  match l with
  | First l' | Nth l' _ | Sub l' _ => root l'
  | _ => l
  end.

(** The locator a call acts on. *)
Definition op_locator {T} (o : op T) : option Locator :=
  match o with
  | WaitForVisible l _ | Count l | GetAttribute l _ | InnerText l
  | InputValue l | IsVisible l | IsChecked l | Click l _ | Check l
  | Fill l _ | ScrollIntoViewIfNeeded l => Some l
  | _ => None
  end.

Definition event_locator (ev : event) : option Locator :=
  match ev with
  | Called o _ => op_locator o
  | Asked _ _ => None
  end.

(** What an event is about. *)
Inductive family :=
  | FPage | FShot | FPause | FApply | FConfirm | FTitle | FResume | FCover
  | FConsent | FSubmit | FModal | FDescription | FAi | FStore | FReport
  | FClock | FStop.

Definition family_eqb (f g : family) : bool :=
  match f, g with
  | FPage, FPage | FShot, FShot | FPause, FPause | FApply, FApply
  | FConfirm, FConfirm | FTitle, FTitle | FResume, FResume | FCover, FCover
  | FConsent, FConsent | FSubmit, FSubmit | FModal, FModal
  | FDescription, FDescription | FAi, FAi | FStore, FStore
  | FReport, FReport | FClock, FClock | FStop, FStop => true
  | _, _ => false
  end.

Definition selector_family (sel : Selector) : family :=
  match sel with
  | APPLY_BUTTON_ROLE | APPLY_LINK_ROLE | APPLY_BUTTON_TOP
  | APPLY_BUTTON_SIDEBAR => FApply
  | VACANCY_TITLE_H1 | VACANCY_TITLE_QA | VACANCY_TITLE_VIEW_QA
  | VACANCY_TITLE_CLASS => FTitle
  | RESUME_SELECT_ITEM | RESUME_SELECT_ITEM_IN_GROUP | RESUME_GENERIC_QA
  | RESUME_LABEL_WITH_TEXT | RESUME_FALLBACK_INPUT | RESUME_FALLBACK_RADIO
  | INPUT_RADIO | XPATH_RESUME_DIV _ | XPATH_RESUME_LABEL _
  | XPATH_RESUME_LINK _ => FResume
  | COVER_LETTER_TOGGLE | COVER_LETTER_TEXTAREA
  | COVER_LETTER_TEXTAREA_PLACEHOLDER | COVER_LETTER_TEXTAREA_GENERIC => FCover
  | CONSENT_CHECKBOX_AGREEMENT | CONSENT_CHECKBOX_QA
  | CONSENT_CHECKBOX_REQUIRED => FConsent
  | SUBMIT_BUTTON | SUBMIT_BUTTON_TEXT_1 | SUBMIT_BUTTON_TEXT_2
  | SUBMIT_BUTTON_GENERIC_QA => FSubmit
  | FOREIGN_COUNTRY_MODAL_BUTTON => FModal
  | DESCRIPTION _ => FDescription
  end.

(** The texts client.py looks for: the cover-letter toggle, the apply entry
    point, and the confirmation phrases. *)
Definition text_family (t : string) : family :=
  if String.eqb t "Добавить сопроводительное" then FCover
  else if String.eqb t "Откликнуться" then FApply
  else FConfirm.

Definition locator_family (l : Locator) : family :=
  match root l with
  | Loc sel => selector_family sel
  | ByRole _ name => text_family name
  | ByText t => text_family t
  | _ => FPage
  end.

Definition op_family {T} (o : op T) : family :=
  match o with
  | WaitForVisible l _ | Count l | GetAttribute l _ | InnerText l
  | InputValue l | IsVisible l | IsChecked l | Click l _ | Check l
  | Fill l _ | ScrollIntoViewIfNeeded l => locator_family l
  | KeyboardPress _ => FCover
  | Screenshot _ => FShot
  | GenerateCoverLetter _ _ => FAi
  | Connect | Execute _ | Commit => FStore
  | Pause => FPause
  | CsvAppend _ _ => FReport
  | _ => FPage
  end.

Definition event_family (ev : event) : family :=
  match ev with
  | Called o _ => op_family o
  | Asked q _ =>
      match q with
      | Sleep => FPause
      | UtcNow => FClock
      | StopFlag => FStop
      end
  end.

(** The event belongs to one of the families [fs]. *)
Definition in_families (fs : list family) (ev : event) : bool :=
  existsb (family_eqb (event_family ev)) fs.

(** [fs] is included in [gs]. *)
Definition subset (fs gs : list family) : bool :=
  forallb (fun f => existsb (family_eqb f) gs) fs.

(** The event is part of resume selection, of consent checking or of
    submission. *)
Definition past_cover_letter (ev : event) : bool :=
  in_families [FResume; FConsent; FSubmit] ev.

(** The event is part of cover-letter filling, of resume selection, of
    consent checking or of submission. *)
Definition past_applied_check (ev : event) : bool :=
  in_families [FCover; FResume; FConsent; FSubmit] ev.

(** A click on a submit control. *)
Definition is_submit_click (ev : event) : bool :=
  match ev with
  | Called (Click l _) _ => family_eqb (locator_family l) FSubmit
  | _ => false
  end.

(** A listing page was opened. *)
Definition is_new_page (ev : event) : bool :=
  match ev with
  | Called NewPage _ => true
  | _ => false
  end.

(** A transaction on the seen-store was committed. *)
Definition is_commit (ev : event) : bool :=
  match ev with
  | Called Commit (Ok _) => true
  | _ => false
  end.

(** A screenshot request with the given tag. *)
Definition is_shot (tag : string) (ev : event) : bool :=
  match ev with
  | Called (Screenshot t) _ => String.eqb t tag
  | _ => false
  end.

(** A confirmation phrase was found visible. *)
Definition confirmation_seen (ev : event) : bool :=
  match ev with
  | Called (WaitForVisible l _) (Ok _) => family_eqb (locator_family l) FConfirm
  | _ => false
  end.

(** An apply entry point was found visible. *)
Definition entry_point_seen (ev : event) : bool :=
  match ev with
  | Called (WaitForVisible l _) (Ok _) => family_eqb (locator_family l) FApply
  | _ => false
  end.

(** A cover-letter textarea was found visible. *)
Definition textarea_seen (ev : event) : bool :=
  match ev with
  | Called (WaitForVisible l _) (Ok _) =>
      match root l with
      | Loc COVER_LETTER_TEXTAREA | Loc COVER_LETTER_TEXTAREA_PLACEHOLDER
      | Loc COVER_LETTER_TEXTAREA_GENERIC => true
      | _ => false
      end
  | _ => false
  end.

(** A wait for a cover-letter textarea to show, whatever came of it: the
    call that opens a strategy of [fill_cover_letter_with_verification]. *)
Definition textarea_probe (ev : event) : bool :=
  match ev with
  | Called (WaitForVisible l _) _ =>
      match root l with
      | Loc COVER_LETTER_TEXTAREA | Loc COVER_LETTER_TEXTAREA_PLACEHOLDER
      | Loc COVER_LETTER_TEXTAREA_GENERIC => true
      | _ => false
      end
  | _ => false
  end.

(** No cover-letter textarea was found visible during these events. *)
Definition textarea_never_seen (evs : list event) : Prop :=
  forallb (fun ev => negb (textarea_seen ev)) evs = true.

(** The probe that opens a cycle of the submission loop: the wait for the
    first submit candidate. *)
Definition opens_submit_cycle (ev : event) : bool :=
  match ev with
  | Called (WaitForVisible l _) _ =>
      match root l with Loc SUBMIT_BUTTON => true | _ => false end
  | _ => false
  end.

(** The probe that opens an attempt of the cover-letter loop: the wait for
    the first textarea candidate. *)
Definition opens_fill_attempt (ev : event) : bool :=
  match ev with
  | Called (WaitForVisible l _) _ =>
      match root l with Loc COVER_LETTER_TEXTAREA => true | _ => false end
  | _ => false
  end.

(** A write into a textarea. *)
Definition is_fill (ev : event) : bool :=
  match ev with
  | Called (Fill _ _) _ => true
  | _ => false
  end.

End Logic.

(** ** A concrete site, to run the code on *)

Module Site.
Import PyStr Browser Client Logic.

(** What the listing page shows and which calls fail. *)
Record Site := {
  textarea_visible : bool;          (* the cover-letter textarea shows *)
  resumes : list string;            (* the texts of the resume entries *)
  submit_disabled : option string;  (* the submit button's [disabled] attribute *)
  goto_error : option exn;          (* what [page.goto] raises, if anything *)
  insert_error : option exn         (* what the INSERT raises, if anything *)
}.

(** The state of the site: whether the application went through, the
    content of the textarea, the clock. *)
Record site_state := {
  submitted : bool;
  letter : string;
  clock : Z
}.

(** The index a locator was narrowed to by [.nth]. *)
Fixpoint nth_index (l : Locator) : nat :=
  match l with
  | Nth _ i => i
  | First l' | Sub l' _ => nth_index l'
  | _ => 0
  end.

Section Behaviour.
Variable site : Site.

Definition matching (mask : string) : list string :=
  List.filter (fun t => contains mask (lower (strip t))) (resumes site).

(** Before submission the page shows the apply button; after it, the
    confirmation phrase. *)
Definition visible (st : site_state) (l : Locator) : bool :=
  match root l with
  | ByText t => existsb (String.eqb t) ALREADY_APPLIED_TEXT && submitted st
  | ByRole role name =>
      String.eqb role "button" && String.eqb name "Откликнуться"
      && negb (submitted st)
  | Loc COVER_LETTER_TEXTAREA => textarea_visible site
  | Loc SUBMIT_BUTTON => true
  | Loc RESUME_SELECT_ITEM => nth_index l <? length (resumes site)
  | Loc (XPATH_RESUME_DIV mask) => 0 <? length (matching mask)
  | _ => false
  end.

Definition elements (l : Locator) : nat :=
  match root l with
  | Loc RESUME_SELECT_ITEM =>
      match l with Loc _ => length (resumes site) | _ => 0 end
  | Loc (XPATH_RESUME_DIV mask) =>
      match l with Loc _ => length (matching mask) | _ => 0 end
  | _ => 0
  end.

Definition raise_if {T} (e : option exn) (v : T) (st : site_state)
  : result T * site_state :=
  match e with
  | Some x => (Raise x, st)
  | None => (Ok v, st)
  end.

Definition site_handle (T : Type) (o : op T) (st : site_state)
  : result T * site_state :=
  match o in op T return result T * site_state with
  | NewPage | OnConsole | SetDefaultTimeout _ | Close | Screenshot _
  | WaitForTimeout _ | KeyboardPress _ | Check _ | ScrollIntoViewIfNeeded _
  | Connect | Commit | CsvAppend _ _ => (Ok tt, st)
  | Pause =>
      (Ok tt, {| submitted := submitted st; letter := letter st;
                 clock := (clock st + 1)%Z |})
  | Goto _ _ => raise_if (goto_error site) tt st
  | Title => (Ok "Python developer", st)
  | WaitForVisible l _ =>
      if visible st l then (Ok tt, st) else (Raise PWTimeoutError, st)
  | Count l => (Ok (elements l), st)
  | GetAttribute l name =>
      match root l with
      | Loc SUBMIT_BUTTON =>
          (Ok (if String.eqb name "disabled" then submit_disabled site else None), st)
      | _ => (Ok None, st)
      end
  | InnerText l =>
      match root l with
      | Loc RESUME_SELECT_ITEM => (Ok (nth (nth_index l) (resumes site) ""), st)
      | _ => (Ok "", st)
      end
  | InputValue _ => (Ok (letter st), st)
  | IsVisible _ | IsChecked _ => (Ok false, st)
  | Click l _ =>
      match root l with
      | Loc SUBMIT_BUTTON =>
          (Ok tt, {| submitted := true; letter := letter st; clock := clock st |})
      | _ => (Ok tt, st)
      end
  | Fill _ text =>
      (Ok tt, {| submitted := submitted st; letter := text; clock := clock st |})
  | GenerateCoverLetter _ _ => (Ok "", st)
  | Execute stmt =>
      match stmt with
      | INSERT_OR_IGNORE _ _ => raise_if (insert_error site) tt st
      | _ => (Ok tt, st)
      end
  end.

Definition site_observe (T : Type) (q : query T) (st : site_state)
  : T * site_state :=
  match q in query T return T * site_state with
  | Sleep =>
      (tt, {| submitted := submitted st; letter := letter st;
              clock := (clock st + 1)%Z |})
  | UtcNow => (clock st, st)
  | StopFlag => (false, st)
  end.

Definition site_world : World :=
  {| W := site_state; handle := site_handle; observe := site_observe |}.

(** The state a run starts in: a fresh page, an empty log and the given
    table. *)
Definition start (t : gmap string Z) : @state site_world :=
  @Build_state site_world
    {| submitted := false; letter := ""; clock := 1000 |} [] t.

(** The state of a run on a listing already applied to. *)
Definition start_applied (t : gmap string Z) : @state site_world :=
  @Build_state site_world
    {| submitted := true; letter := ""; clock := 1000 |} [] t.

End Behaviour.

(** The default configuration of config.py. *)
Definition default_cfg : Config :=
  {| max_applies := 200;
     seen_ttl_days := 14;
     resume_match := "python developer";
     fail_if_resume_not_found := true;
     require_cover_letter := true |}.

(** client.py with config.py and selectors.py as they are. *)
Definition as_shipped : Undeclared :=
  {| cfg_ai := None; modal_declared := false |}.

(** The fields and the selector client.py reads, declared. *)
Definition completed : Undeclared :=
  {| cfg_ai := Some {| use_ai_cover_letter := false; openrouter_api_key := "" |};
     modal_declared := true |}.

Definition cover : string :=
  "Dear hiring team, I would like to apply for this position.".

(** A listing that works: a textarea, one matching resume, an enabled
    submit button. *)
Definition good_site : Site :=
  {| textarea_visible := true;
     resumes := ["Python Developer"];
     submit_disabled := None;
     goto_error := None;
     insert_error := None |}.

(** The same listing where no resume entry matches the criterion. *)
Definition no_resume_site : Site :=
  {| textarea_visible := true;
     resumes := ["Accountant"];
     submit_disabled := None;
     goto_error := None;
     insert_error := None |}.

(** The same listing whose submit button carries the attribute [disabled]
    (as HTML writes it: present, with the empty value). *)
Definition disabled_site : Site :=
  {| textarea_visible := true;
     resumes := ["Python Developer"];
     submit_disabled := Some "";
     goto_error := None;
     insert_error := None |}.

(** A listing without a cover-letter textarea. *)
Definition no_textarea_site : Site :=
  {| textarea_visible := false;
     resumes := ["Python Developer"];
     submit_disabled := None;
     goto_error := None;
     insert_error := None |}.

(** A listing whose navigation fails with a network error. *)
Definition unreachable_site : Site :=
  {| textarea_visible := true;
     resumes := ["Python Developer"];
     submit_disabled := None;
     goto_error := Some (PlaywrightError "net::ERR_NAME_NOT_RESOLVED");
     insert_error := None |}.

(** A listing whose navigation times out, on a machine where the table
    cannot be written. *)
Definition timeout_readonly_site : Site :=
  {| textarea_visible := true;
     resumes := ["Python Developer"];
     submit_disabled := None;
     goto_error := Some PWTimeoutError;
     insert_error := Some (OtherException 0) |}.

(** A listing whose navigation times out; the table can be written. *)
Definition timeout_site : Site :=
  {| textarea_visible := true;
     resumes := ["Python Developer"];
     submit_disabled := None;
     goto_error := Some PWTimeoutError;
     insert_error := None |}.

End Site.

(** ** Further definitions: config.py, more observations, another world *)

Module ConfigEnv.
Import PyStr.

(** config.py, [Config.from_env], the value of [HH_REGION_IDS]:
    [[r.strip() for r in os.getenv("HH_REGION_IDS", "").split(",") if r.strip()]];
    [env] is the variable, [None] when it is not set. *)
Definition region_ids (env : option string) : list string :=
  let value := match env with Some v => v | None => "" end in
  List.filter truthy (List.map strip (split "," value)).

End ConfigEnv.

Module Observations.
Import PyStr Browser Client Logic.

(** Every character of [s] is a digit. *)
Fixpoint all_digits (s : string) : bool :=
  match s with
  | EmptyString => true
  | String c s' => Utils.is_digit c && all_digits s'
  end.

(** A resume entry or a box was activated: a [check] or a [click] that
    returned. *)
Definition activated (ev : event) : bool :=
  match ev with
  | Called (Check _) (Ok _) | Called (Click _ _) (Ok _) => true
  | _ => false
  end.

Definition is_check (ev : event) : bool :=
  match ev with
  | Called (Check _) _ => true
  | _ => false
  end.

(** A wait for an element to show. *)
Definition is_wait (ev : event) : bool :=
  match ev with
  | Called (WaitForVisible _ _) _ => true
  | _ => false
  end.

Definition is_close (ev : event) : bool :=
  match ev with
  | Called Close _ => true
  | _ => false
  end.

(** A forced click on a submit control that returned. *)
Definition submit_clicked (ev : event) : bool :=
  match ev with
  | Called (Click l true) (Ok _) => family_eqb (locator_family l) FSubmit
  | _ => false
  end.

(** A read-back of the textarea that passes the test of line 320 for the
    text [text]. *)
Definition read_back_verified (text : string) (ev : event) : bool :=
  match ev with
  | Called (InputValue _) (Ok v) =>
      Nat.min 20 (String.length text / 2) <=? String.length (strip v)
  | _ => false
  end.

(** The newest events say that [btn] qualified as a submit button: it was
    seen visible, its [disabled] attribute read false and its
    [aria-disabled] attribute was absent or the string false. *)
Definition qualified (btn : Locator) (evs : list event) : Prop :=
  exists d a,
    firstn 3 evs
    = [ Called (GetAttribute btn "aria-disabled") (Ok a);
        Called (GetAttribute btn "disabled") (Ok d);
        Called (WaitForVisible (First btn) 900) (Ok tt) ]
    /\ attr_truthy d = false
    /\ aria_enabled a = true.

(** The number of events of a kind. *)
Definition count (P : event -> bool) (evs : list event) : nat :=
  length (List.filter P evs).

(** The listings the loop has settled: applied to, found already applied
    to, or failed. *)
Definition settled (st : App.Stats) : Z :=
  (App.applies_done st + App.skipped_already st + App.errors st)%Z.

(** What a dry run may touch: the stop flag, the table of seen listings,
    the clock, the report and the pauses. *)
Definition dry_run_families : list family :=
  [FStop; FStore; FClock; FReport; FPause].

End Observations.

Module MoreSite.
Import PyStr Browser Client Logic Site.

(** The state of a run that starts at the time [now] (in microseconds) with
    the table [t]. *)
Definition start_at (site : Site) (now : Z) (t : gmap string Z)
  : @state (site_world site) :=
  @Build_state (site_world site)
    {| submitted := false; letter := ""; clock := now |} [] t.

(** A configuration that stops after two applications. *)
Definition two_applies_cfg : Config :=
  {| max_applies := 2;
     seen_ttl_days := 14;
     resume_match := "python developer";
     fail_if_resume_not_found := true;
     require_cover_letter := true |}.

(** A page of results with four listings. *)
Definition four_links : list string :=
  [ "https://hh.ru/vacancy/101"; "https://hh.ru/vacancy/102?query=python";
    "https://hh.ru/vacancy/103"; "https://hh.ru/vacancy/104" ].

End MoreSite.

(** ** Further definitions: what a result waits for, a browser without pages *)

Module Returns.
Import PyStr Browser Client Logic Observations.

Section Returns.
Context {Wd : World}.

(** The run only adds events to the log. *)
Definition logs {A} (m : M A) : Prop := only (fun _ => true) m.

(** [m] returns a value that [good] accepts only after an event [P]. *)
Definition only_after {A} (good : A -> bool) (P : event -> bool) (m : M A)
  : Prop :=
  spec m (fun evs r =>
            match r with
            | Ok a => good a = true -> existsb P evs = true
            | Raise _ => True
            end).

End Returns.

(** The outcome is [ApplyResult.SUCCESS]. *)
Definition is_success (rt : ApplyResult * string) : bool :=
  match fst rt with
  | SUCCESS => true
  | _ => false
  end.

(** The loop returned a value. *)
Definition returned {R} (r : option R) : bool :=
  match r with
  | Some _ => true
  | None => false
  end.

(** An event between the opening of the page and its closing. *)
Definition within_page (ev : event) : bool :=
  negb (is_new_page ev) && negb (is_close ev).

(** The newest events say that the text was written into a textarea and a
    value long enough for the test of line 320 was read back from it. *)
Definition written_and_read_back (text : string) (evs : list event) : Prop :=
  exists ta v,
    firstn 3 evs
    = [ Called (InputValue ta) (Ok v); Asked Sleep tt;
        Called (Fill ta text) (Ok tt) ]
    /\ Nat.min 20 (String.length text / 2) <= String.length (strip v).

(** No read-back among the events passed the test for [text]. *)
Definition none_verified (text : string) (evs : list event) : Prop :=
  forallb (fun ev => negb (read_back_verified text ev)) evs = true.

(** The newest event is a read-back that passed the test, the only one. *)
Definition accepted (text : string) (evs : list event) : Prop :=
  (exists ta v,
     hd_error evs = Some (Called (InputValue ta) (Ok v))
     /\ Nat.min 20 (String.length text / 2) <= String.length (strip v))
  /\ none_verified text (tl evs).

(** The loop returned [True] on an accepted read-back. *)
Definition accepting (text : string) (evs : list event)
    (r : result (option bool)) : Prop :=
  match r with
  | Ok (Some b) => b = true /\ accepted text evs
  | _ => False
  end.

(** What [apply_to_vacancy] raises when [context.new_page()] raises [e]. *)
Definition escapes_as (e : exn) : exn :=
  match e with
  | PWTimeoutError => UnboundLocalError "title"
  | _ => NameError "TargetClosedError"
  end.

End Returns.

Module ClosedContext.
Import PyStr Browser Client Logic Site.

(** A browser whose context opens no page: [new_page] raises [e];
    everything else is as on [good_site]. *)
Definition closed_handle (e : exn) (T : Type) (o : op T) (st : site_state)
  : result T * site_state :=
  match o in op T return result T * site_state with
  | NewPage => (Raise e, st)
  | o' => site_handle good_site _ o' st
  end.

Definition closed_world (e : exn) : World :=
  {| W := site_state; handle := closed_handle e; observe := site_observe |}.

Definition closed_start (e : exn) : @state (closed_world e) :=
  @Build_state (closed_world e)
    {| submitted := false; letter := ""; clock := 1000 |} [] ∅.

End ClosedContext.

(** * Properties *)

(** ** extract_vacancy_id *)

Module UtilsFacts.
Import PyStr Utils.

(** The tests of tests/test_utils.py. *)
Example test_extract_vacancy_id :
  List.map extract_vacancy_id
    [ "https://hh.ru/vacancy/12345678";
      "https://spb.hh.ru/vacancy/87654321?query=python";
      "https://hh.ru/vacancy/11223344?from=what&uid=whatever";
      "https://some.other.domain/vacancy/99999";
      "https://hh.ru/some/path/5554433" ]
  = [ "12345678"; "87654321"; "11223344"; "99999"; "5554433" ].
Proof. reflexivity. Qed.

Lemma take_digits_query s q :
  take_digits (s ++ String "?" q) = take_digits s.
Proof.
  induction s as [|c s IH]; simpl; [reflexivity|].
  destruct (is_digit c); [now rewrite IH | reflexivity].
Qed.

Lemma strip_prefix_query pat p q :
  has_char "?" pat = false ->
  strip_prefix pat (p ++ String "?" q)
  = option_map (fun x => x ++ String "?" q) (strip_prefix pat p).
Proof.
  revert p; induction pat as [|a pat IH]; intros p Hpat; simpl; [reflexivity|].
  simpl in Hpat. apply orb_false_iff in Hpat as [Ha Hpat].
  destruct p as [|b p]; simpl.
  - now rewrite Ha.
  - destruct (Ascii.eqb a b); [now apply IH | reflexivity].
Qed.

Lemma VAC_ID_RE_match_query p q :
  VAC_ID_RE_match (p ++ String "?" q) = VAC_ID_RE_match p.
Proof.
  unfold VAC_ID_RE_match.
  rewrite strip_prefix_query by reflexivity.
  destruct (strip_prefix "/vacancy/" p) as [rest|]; simpl; [|reflexivity].
  now rewrite take_digits_query.
Qed.

Lemma VAC_ID_RE_search_no_slash s :
  has_char "/" s = false -> VAC_ID_RE_search s = None.
Proof.
  induction s as [|c s IH]; intros H; [reflexivity|].
  simpl in H. apply orb_false_iff in H as [Hc Hs].
  cbn [VAC_ID_RE_search]. rewrite (IH Hs).
  unfold VAC_ID_RE_match. cbn [strip_prefix].
  rewrite Ascii.eqb_sym, Hc. reflexivity.
Qed.

Lemma VAC_ID_RE_search_query p q :
  has_char "/" q = false ->
  VAC_ID_RE_search (p ++ String "?" q) = VAC_ID_RE_search p.
Proof.
  intros Hq. induction p as [|c p IH].
  - apply (VAC_ID_RE_search_no_slash (String "?" q)). simpl. exact Hq.
  - change (String c p ++ String "?" q) with (String c (p ++ String "?" q)).
    cbn [VAC_ID_RE_search].
    change (String c (p ++ String "?" q)) with (String c p ++ String "?" q).
    rewrite VAC_ID_RE_match_query, IH. reflexivity.
Qed.

Lemma split_not_nil sep s : split sep s <> [].
Proof.
  destruct s as [|c s]; simpl; [discriminate|].
  destruct (Ascii.eqb c sep); [discriminate|].
  destruct (split sep s); discriminate.
Qed.

Lemma split_no_sep sep s : has_char sep s = false -> split sep s = [s].
Proof.
  induction s as [|c s IH]; simpl; intros H; [reflexivity|].
  apply orb_false_iff in H as [Hc Hs]. rewrite Hc, (IH Hs). reflexivity.
Qed.

Lemma last_cons_not_nil {A} (x : A) l d : l <> [] -> List.last (x :: l) d = List.last l d.
Proof. destruct l; [congruence | reflexivity]. Qed.

Lemma has_char_app c a b :
  has_char c (a ++ b) = has_char c a || has_char c b.
Proof.
  induction a as [|x a IH]; simpl; [reflexivity|].
  now rewrite IH, orb_assoc.
Qed.

Lemma split_two sep s :
  has_char sep s = true -> exists h x t, split sep s = h :: x :: t.
Proof.
  induction s as [|c s IH]; simpl; [discriminate|].
  pose proof (split_not_nil sep s) as Hne.
  destruct (Ascii.eqb c sep); simpl.
  - intros _. destruct (split sep s) as [|h t]; [congruence|]. eauto.
  - intros H. destruct (IH H) as (h & x & t & ->). eauto.
Qed.

Lemma last_split_cons sep c s :
  Ascii.eqb c sep = false ->
  List.last (split sep (String c s)) ""
  = if has_char sep s then List.last (split sep s) "" else String c s.
Proof.
  intros Hc. cbn [split]. rewrite Hc.
  destruct (has_char sep s) eqn:Hs.
  - destruct (split_two sep s Hs) as (h & x & t & ->). reflexivity.
  - rewrite (split_no_sep sep s Hs). reflexivity.
Qed.

Lemma last_split_sep sep s :
  List.last (split sep (String sep s)) "" = List.last (split sep s) "".
Proof.
  cbn [split]. rewrite Ascii.eqb_refl.
  apply last_cons_not_nil, split_not_nil.
Qed.

Lemma last_split_query p q :
  has_char "/" q = false ->
  List.last (split "/" (p ++ String "?" q)) ""
  = List.last (split "/" p) "" ++ String "?" q.
Proof.
  intros Hq. induction p as [|c p IH].
  - simpl. rewrite (split_no_sep "/" q Hq). reflexivity.
  - change (String c p ++ String "?" q) with (String c (p ++ String "?" q)).
    destruct (Ascii.eqb c "/") eqn:Hc.
    + apply Ascii.eqb_eq in Hc as ->. rewrite !last_split_sep. exact IH.
    + rewrite !last_split_cons by exact Hc.
      rewrite has_char_app. simpl. rewrite Hq, orb_false_r.
      destruct (has_char "/" p); [exact IH | reflexivity].
Qed.

Lemma hd_split_app c x q :
  List.hd "" (split c (x ++ String c q)) = List.hd "" (split c x).
Proof.
  induction x as [|a x IH]; simpl.
  - now rewrite Ascii.eqb_refl.
  - destruct (Ascii.eqb a c); [reflexivity|].
    pose proof (split_not_nil c x) as Hx.
    pose proof (split_not_nil c (x ++ String c q)) as Hxq.
    destruct (split c x); [congruence|].
    destruct (split c (x ++ String c q)); [congruence|].
    simpl in IH |- *. now rewrite IH.
Qed.

(** A query string without ["/"] does not change the identifier. *)
Lemma extract_vacancy_id_query p q :
  has_char "/" q = false ->
  extract_vacancy_id (p ++ String "?" q) = extract_vacancy_id p.
Proof.
  intros Hq. unfold extract_vacancy_id.
  rewrite (VAC_ID_RE_search_query p q Hq), (last_split_query p q Hq).
  now rewrite hd_split_app.
Qed.

Lemma strip_query_no_mark u : has_char "?" u = false -> strip_query u = u.
Proof. intros H. unfold strip_query. now rewrite split_no_sep. Qed.

Lemma query_of_no_mark u : has_char "?" u = false -> query_of u = "".
Proof.
  induction u as [|c u IH]; simpl; [reflexivity|].
  intros H. apply orb_false_iff in H as [-> H]. exact (IH H).
Qed.

(** A URL with a query string is its path, ["?"] and its query string. *)
Lemma url_decompose u :
  has_char "?" u = true -> u = strip_query u ++ String "?" (query_of u).
Proof.
  unfold strip_query.
  induction u as [|c u IH]; simpl; [discriminate|].
  destruct (Ascii.eqb c "?") eqn:Hc; simpl.
  - intros _. apply Ascii.eqb_eq in Hc as ->. reflexivity.
  - intros H. pose proof (split_not_nil "?" u) as Hne.
    destruct (split "?" u) as [|h t]; [congruence|].
    simpl in IH |- *.
    change (String c u = String c (h ++ String "?" (query_of u))).
    f_equal. exact (IH H).
Qed.

Lemma extract_vacancy_id_strip_query u :
  has_char "/" (query_of u) = false ->
  extract_vacancy_id u = extract_vacancy_id (strip_query u).
Proof.
  intros Hq. destruct (has_char "?" u) eqn:Hu.
  - rewrite (url_decompose u Hu) at 1. now apply extract_vacancy_id_query.
  - now rewrite strip_query_no_mark.
Qed.

(** C2, as stated, fails: the pattern is searched in the whole URL and the
    last ["/"] may lie in the query string.  These two URLs differ only in
    their query string. *)
Lemma C2_counterexample :
  strip_query "https://hh.ru/employer/77?backurl=/vacancy/555"
  = strip_query "https://hh.ru/employer/77"
  /\ extract_vacancy_id "https://hh.ru/employer/77?backurl=/vacancy/555" = "555"
  /\ extract_vacancy_id "https://hh.ru/employer/77" = "77".
Proof. repeat split. Qed.

(** A match of the pattern in the path is the match in the whole URL:
    the search goes from the left, and neither the literal nor a digit is
    a ["?"]. *)
Lemma VAC_ID_RE_search_path p q :
  VAC_ID_RE_search p <> None ->
  VAC_ID_RE_search (p ++ String "?" q) = VAC_ID_RE_search p.
Proof.
  induction p as [|c p IH]; intros H.
  - now elim H.
  - change (String c p ++ String "?" q) with (String c (p ++ String "?" q)).
    cbn [VAC_ID_RE_search] in H |- *.
    change (String c (p ++ String "?" q)) with (String c p ++ String "?" q).
    rewrite VAC_ID_RE_match_query.
    destruct (VAC_ID_RE_match (String c p)); [reflexivity | exact (IH H)].
Qed.

(** When the pattern matches in the path, the query string does not change
    the identifier, whatever it contains. *)
Lemma extract_vacancy_id_path u :
  VAC_ID_RE_search (strip_query u) <> None ->
  extract_vacancy_id u = extract_vacancy_id (strip_query u).
Proof.
  intros Hm. destruct (has_char "?" u) eqn:Hu.
  - rewrite (url_decompose u Hu) at 1. unfold extract_vacancy_id.
    rewrite (VAC_ID_RE_search_path _ _ Hm).
    now destruct (VAC_ID_RE_search (strip_query u)).
  - now rewrite strip_query_no_mark.
Qed.

(** C2 (amended): two URLs that differ only in their query strings have the
    same identifier, and it is the identifier of the URL with its query
    string stripped, when [/vacancy/<digits>] occurs in their path or
    neither query string contains ["/"]. *)
Theorem C2_extract_vacancy_id_query_invariant (u1 u2 : string) :
  strip_query u1 = strip_query u2 ->
  VAC_ID_RE_search (strip_query u1) <> None
  \/ (has_char "/" (query_of u1) = false
      /\ has_char "/" (query_of u2) = false) ->
  extract_vacancy_id u1 = extract_vacancy_id u2
  /\ extract_vacancy_id u1 = extract_vacancy_id (strip_query u1).
Proof.
  intros Hp [Hm | [H1 H2]].
  - rewrite (extract_vacancy_id_path u1 Hm).
    rewrite Hp in Hm. rewrite (extract_vacancy_id_path u2 Hm).
    now rewrite Hp.
  - rewrite (extract_vacancy_id_strip_query u1 H1).
    rewrite (extract_vacancy_id_strip_query u2 H2).
    now rewrite Hp.
Qed.

Lemma C2_witness :
  extract_vacancy_id "https://spb.hh.ru/vacancy/87654321?query=python"
  = extract_vacancy_id
      "https://spb.hh.ru/vacancy/87654321?from=/search/vacancy&uid=1"
  /\ extract_vacancy_id "https://spb.hh.ru/vacancy/87654321?query=python"
     = extract_vacancy_id
         (strip_query "https://spb.hh.ru/vacancy/87654321?query=python").
Proof.
  apply (C2_extract_vacancy_id_query_invariant
           "https://spb.hh.ru/vacancy/87654321?query=python"
           "https://spb.hh.ru/vacancy/87654321?from=/search/vacancy&uid=1");
    [reflexivity | left; discriminate].
Defined.

Lemma has_char_split c sep s x :
  has_char c s = false -> In x (split sep s) -> has_char c x = false.
Proof.
  revert x; induction s as [|a s IH]; simpl; intros x Hs Hx.
  - destruct Hx as [<-|[]]. reflexivity.
  - apply orb_false_iff in Hs as [Ha Hs].
    pose proof (split_not_nil sep s) as Hne.
    destruct (Ascii.eqb a sep).
    + destruct Hx as [<-|Hx]; [reflexivity | now apply IH].
    + destruct (split sep s) as [|h t]; [congruence|].
      destruct Hx as [<-|Hx].
      * simpl. rewrite Ha. apply IH; [exact Hs | now left].
      * apply IH; [exact Hs | now right].
Qed.

Lemma last_In {A} (l : list A) d : l <> [] -> In (List.last l d) l.
Proof.
  induction l as [|x l IH]; [congruence|]. intros _.
  destruct l as [|y l]; [now left|]. right. apply IH. discriminate.
Qed.

Lemma strip_query_has_no_mark u : has_char "?" (strip_query u) = false.
Proof.
  unfold strip_query. induction u as [|c u IH]; simpl; [reflexivity|].
  destruct (Ascii.eqb c "?") eqn:Hc; [reflexivity|].
  pose proof (split_not_nil "?" u) as Hne.
  destruct (split "?" u) as [|h t]; [congruence|].
  simpl in IH |- *. now rewrite Hc, IH.
Qed.

Lemma last_filter_nonempty l :
  List.last l "" <> "" ->
  List.last (List.filter (fun seg => negb (String.eqb seg "")) l) "" = List.last l "".
Proof.
  induction l as [|x l IH]; [reflexivity|].
  destruct l as [|y l].
  - simpl. intros Hx.
    destruct (String.eqb_spec x "") as [->|_]; [now elim Hx | reflexivity].
  - intros H. change (List.last (x :: y :: l) "") with (List.last (y :: l) "") in *.
    specialize (IH H). cbn [List.filter] in IH |- *.
    destruct (negb (String.eqb x "")); [|exact IH].
    destruct (negb (String.eqb y "")) eqn:Hy.
    + exact IH.
    + destruct (List.filter (fun seg => negb (String.eqb seg "")) l) eqn:Hf.
      * exfalso. apply H. rewrite <- IH. reflexivity.
      * exact IH.
Qed.

(** C9, as stated, fails: the code takes what follows the last ["/"], empty
    or not. *)
Lemma C9_counterexample :
  VAC_ID_RE_search (strip_query "https://hh.ru/some/path/") = None
  /\ spec_last_nonempty_path_segment "https://hh.ru/some/path/" = "path"
  /\ extract_vacancy_id "https://hh.ru/some/path/" = "".
Proof. repeat split. Qed.

(** C9 (amended): when [/vacancy/<digits>] does not occur in the path and
    the query string contains no ["/"], the identifier is the last segment
    of the path, that is, what follows its last ["/"]; when this is not
    empty, it is the last non-empty segment. *)
Theorem C9_extract_vacancy_id_fallback (url : string) :
  VAC_ID_RE_search (strip_query url) = None ->
  has_char "/" (query_of url) = false ->
  extract_vacancy_id url = List.last (split "/" (strip_query url)) ""
  /\ (List.last (split "/" (strip_query url)) "" <> "" ->
      extract_vacancy_id url = spec_last_nonempty_path_segment url).
Proof.
  intros Hno Hq.
  assert (H : extract_vacancy_id url = List.last (split "/" (strip_query url)) "").
  { rewrite (extract_vacancy_id_strip_query url Hq).
    unfold extract_vacancy_id. rewrite Hno.
    rewrite split_no_sep; [reflexivity|].
    apply (has_char_split "?" "/" (strip_query url)).
    - apply strip_query_has_no_mark.
    - apply last_In, split_not_nil. }
  split; [exact H|].
  intros Hne. rewrite H. unfold spec_last_nonempty_path_segment.
  symmetry. now apply last_filter_nonempty.
Qed.

Lemma C9_witness :
  extract_vacancy_id "https://hh.ru/some/path/5554433?from=serp"
  = List.last (split "/" (strip_query "https://hh.ru/some/path/5554433?from=serp")) ""
  /\ (List.last (split "/" (strip_query "https://hh.ru/some/path/5554433?from=serp")) "" <> "" ->
      extract_vacancy_id "https://hh.ru/some/path/5554433?from=serp"
      = spec_last_nonempty_path_segment "https://hh.ru/some/path/5554433?from=serp").
Proof.
  apply (C9_extract_vacancy_id_fallback "https://hh.ru/some/path/5554433?from=serp");
    reflexivity.
Defined.

End UtilsFacts.

(** ** Rules for runs *)

Module LogicFacts.
Import PyStr Browser Client Logic.
Local Open Scope prog_scope.

Section Rules.
Context {Wd : World}.

Lemma spec_ret {A} (a : A) (Q : list event -> result A -> Prop) :
  Q [] (Ok a) -> spec (ret a) Q.
Proof.
  intros H s r s' Hrun. injection Hrun as <- <-. now exists [].
Qed.

Lemma spec_raise {A} (e : exn) (Q : list event -> result A -> Prop) :
  Q [] (Raise e) -> spec (raise e) Q.
Proof.
  intros H s r s' Hrun. injection Hrun as <- <-. now exists [].
Qed.

Lemma spec_perform {T} (o : op T) (Q : list event -> result T -> Prop) :
  (forall r, Q [Called o r] r) -> spec (perform o) Q.
Proof.
  intros H s r s' Hrun. unfold perform in Hrun.
  destruct (handle Wd o (world s)) as [r0 w]. injection Hrun as <- <-.
  exists [Called o r0]. split; [reflexivity | apply H].
Qed.

Lemma spec_ask {T} (q : query T) (Q : list event -> result T -> Prop) :
  (forall v, Q [Asked q v] (Ok v)) -> spec (ask q) Q.
Proof.
  intros H s r s' Hrun. unfold ask in Hrun.
  destruct (observe Wd q (world s)) as [v w]. injection Hrun as <- <-.
  exists [Asked q v]. split; [reflexivity | apply H].
Qed.

Lemma spec_bind {A B} (m : M A) (k : A -> M B)
    (Q : list event -> result B -> Prop) :
  spec m (fun evs1 r =>
            match r with
            | Ok a => spec (k a) (fun evs2 r2 => Q (evs2 ++ evs1)%list r2)
            | Raise e => Q evs1 (Raise e)
            end) ->
  spec (bind m k) Q.
Proof.
  intros H s r s' Hrun. unfold bind in Hrun.
  destruct (m s) as [[a|e] s1] eqn:Hm;
    destruct (H _ _ _ Hm) as (evs1 & Hlog1 & Hpost).
  - destruct (Hpost _ _ _ Hrun) as (evs2 & Hlog2 & HQ).
    exists (evs2 ++ evs1)%list. split; [|exact HQ].
    now rewrite Hlog2, Hlog1, app_assoc.
  - injection Hrun as <- <-. now exists evs1.
Qed.

Lemma spec_try_except {A} (m : M A) (h : exn -> M A)
    (Q : list event -> result A -> Prop) :
  spec m (fun evs1 r =>
            match r with
            | Ok a => Q evs1 (Ok a)
            | Raise e => spec (h e) (fun evs2 r2 => Q (evs2 ++ evs1)%list r2)
            end) ->
  spec (try_except m h) Q.
Proof.
  intros H s r s' Hrun. unfold try_except in Hrun.
  destruct (m s) as [[a|e] s1] eqn:Hm;
    destruct (H _ _ _ Hm) as (evs1 & Hlog1 & Hpost).
  - injection Hrun as <- <-. now exists evs1.
  - destruct (Hpost _ _ _ Hrun) as (evs2 & Hlog2 & HQ).
    exists (evs2 ++ evs1)%list. split; [|exact HQ].
    now rewrite Hlog2, Hlog1, app_assoc.
Qed.

Lemma spec_conseq {A} (m : M A) (Q1 Q : list event -> result A -> Prop) :
  spec m Q1 -> (forall evs r, Q1 evs r -> Q evs r) -> spec m Q.
Proof.
  intros H HQ s r s' Hrun.
  destruct (H _ _ _ Hrun) as (evs & Hlog & H1). exists evs. auto.
Qed.

Lemma spec_conj {A} (m : M A) (Q1 Q2 : list event -> result A -> Prop) :
  spec m Q1 -> spec m Q2 -> spec m (fun evs r => Q1 evs r /\ Q2 evs r).
Proof.
  intros H1 H2 s r s' Hrun.
  destruct (H1 _ _ _ Hrun) as (evs & Hlog & HQ1).
  destruct (H2 _ _ _ Hrun) as (evs' & Hlog' & HQ2).
  rewrite Hlog in Hlog'. apply app_inv_tail in Hlog' as <-.
  exists evs. auto.
Qed.

(** *** Rules for [only] *)

Lemma only_ret {A} P (a : A) : only P (ret a).
Proof. now apply spec_ret. Qed.

Lemma only_raise {A} P e : only (A := A) P (raise e).
Proof. now apply spec_raise. Qed.

Lemma only_perform {T} P (o : op T) :
  (forall r, P (Called o r) = true) -> only P (perform o).
Proof. intros H. apply spec_perform. intros r. simpl. now rewrite H. Qed.

Lemma only_ask {T} P (q : query T) :
  (forall v, P (Asked q v) = true) -> only P (ask q).
Proof. intros H. apply spec_ask. intros v. simpl. now rewrite H. Qed.

Lemma only_bind {A B} P (m : M A) (k : A -> M B) :
  only P m -> (forall a, only P (k a)) -> only P (bind m k).
Proof.
  intros Hm Hk. apply spec_bind. eapply spec_conseq; [exact Hm|].
  intros evs1 [a|e] H1; [|exact H1].
  eapply spec_conseq; [apply Hk|]. intros evs2 r2 H2. cbv beta.
  now rewrite forallb_app, H1, H2.
Qed.

Lemma only_try_except {A} P (m : M A) (h : exn -> M A) :
  only P m -> (forall e, only P (h e)) -> only P (try_except m h).
Proof.
  intros Hm Hh. apply spec_try_except. eapply spec_conseq; [exact Hm|].
  intros evs1 [a|e] H1; [exact H1|].
  eapply spec_conseq; [apply Hh|]. intros evs2 r2 H2. cbv beta.
  now rewrite forallb_app, H1, H2.
Qed.

Lemma only_try_finally {A} P (m : M A) (f : M unit) :
  only P m -> only P f -> only P (try_finally m f).
Proof.
  intros Hm Hf s r s' Hrun. unfold try_finally in Hrun.
  destruct (m s) as [r1 s1] eqn:Hm1. injection Hrun as <- <-.
  destruct (Hm _ _ _ Hm1) as (evs1 & Hlog1 & H1).
  destruct (f s1) as [r2 s2] eqn:Hf1.
  destruct (Hf _ _ _ Hf1) as (evs2 & Hlog2 & H2).
  exists (evs2 ++ evs1)%list. simpl. split.
  - now rewrite Hlog2, Hlog1, app_assoc.
  - now rewrite forallb_app, H1, H2.
Qed.

Lemma only_for_each {A R} P (xs : list A) (body : A -> M (option R)) :
  (forall x, In x xs -> only P (body x)) -> only P (for_each xs body).
Proof.
  induction xs as [|x xs IH]; intros H; simpl.
  - apply only_ret.
  - apply only_bind; [apply H; now left|].
    intros [v|]; [apply only_ret|]. apply IH. intros y Hy. apply H. now right.
Qed.

Lemma only_weaken {A} (P P' : event -> bool) (m : M A) :
  (forall ev, P ev = true -> P' ev = true) -> only P m -> only P' m.
Proof.
  intros HP Hm. eapply spec_conseq; [exact Hm|]. intros evs r H. cbv beta in *.
  rewrite forallb_forall in *. auto.
Qed.

(** *** Rules for [at_most] *)

Lemma at_most_bind {A B} n1 n2 P (m : M A) (k : A -> M B) :
  at_most n1 P m -> (forall a, at_most n2 P (k a)) ->
  at_most (n1 + n2) P (bind m k).
Proof.
  intros Hm Hk. apply spec_bind. eapply spec_conseq; [exact Hm|].
  intros evs1 [a|e] H1; cbv beta in *; [|lia].
  eapply spec_conseq; [apply Hk|]. intros evs2 r2 H2. cbv beta in *.
  rewrite List.filter_app, length_app. lia.
Qed.

Lemma at_most_le {A} n n' P (m : M A) :
  n <= n' -> at_most n P m -> at_most n' P m.
Proof.
  intros Hle Hm. eapply spec_conseq; [exact Hm|]. intros evs r H. cbv beta in *. lia.
Qed.

Lemma at_most_none {A} P (m : M A) :
  only (fun ev => negb (P ev)) m -> at_most 0 P m.
Proof.
  intros Hm. eapply spec_conseq; [exact Hm|]. intros evs r H. cbv beta in *.
  clear r. induction evs as [|ev evs IH]; simpl in *; [lia|].
  apply andb_prop in H as [Hev Hevs]. apply negb_true_iff in Hev.
  rewrite Hev. auto.
Qed.

Lemma at_most_for_each {A R} n P (xs : list A) (body : A -> M (option R)) :
  (forall x, at_most n P (body x)) ->
  at_most (length xs * n) P (for_each xs body).
Proof.
  intros H. induction xs as [|x xs IH]; simpl.
  - apply spec_ret. simpl. lia.
  - apply at_most_bind; [apply H|].
    intros [v|]; [|exact IH].
    apply spec_ret. simpl. lia.
Qed.

Lemma at_most_ret {A} P (a : A) : at_most 0 P (ret a).
Proof. apply spec_ret. simpl. lia. Qed.

Lemma at_most_raise {A} P e : at_most (A := A) 0 P (raise e).
Proof. apply spec_raise. simpl. lia. Qed.

Lemma at_most_perform {T} P (o : op T) : at_most 1 P (perform o).
Proof. apply spec_perform. intros r. simpl. destruct (P _); simpl; lia. Qed.

Lemma at_most_perform_none {T} P (o : op T) :
  (forall r, P (Called o r) = false) -> at_most 0 P (perform o).
Proof. intros H. apply spec_perform. intros r. simpl. rewrite H. simpl. lia. Qed.

Lemma at_most_ask {T} P (q : query T) :
  (forall v, P (Asked q v) = false) -> at_most 0 P (ask q).
Proof. intros H. apply spec_ask. intros v. simpl. rewrite H. simpl. lia. Qed.

Lemma at_most_try_except {A} n1 n2 P (m : M A) (h : exn -> M A) :
  at_most n1 P m -> (forall e, at_most n2 P (h e)) ->
  at_most (n1 + n2) P (try_except m h).
Proof.
  intros Hm Hh. apply spec_try_except. eapply spec_conseq; [exact Hm|].
  intros evs1 [a|e] H1; cbv beta in *; [lia|].
  eapply spec_conseq; [apply Hh|]. intros evs2 r2 H2. cbv beta in *.
  rewrite List.filter_app, length_app. lia.
Qed.

Lemma at_most_if {A} n1 n2 P (b : bool) (m1 m2 : M A) :
  at_most n1 P m1 -> at_most n2 P m2 ->
  at_most (Nat.max n1 n2) P (if b then m1 else m2).
Proof.
  intros H1 H2. destruct b; (eapply at_most_le; [|eassumption]); lia.
Qed.

Lemma at_most_option {A B} n1 n2 P (r : option A) (f : A -> M B) (g : M B) :
  (forall a, at_most n1 P (f a)) -> at_most n2 P g ->
  at_most (Nat.max n1 n2) P (match r with Some a => f a | None => g end).
Proof.
  intros H1 H2. destruct r; (eapply at_most_le; [|eauto]); lia.
Qed.

(** A run that stays within families none of which holds the events [P]
    counts has no such event. *)
Lemma at_most_zero_of_footprint {A} fs f P (m : M A) :
  only (in_families fs) m ->
  (forall ev, P ev = true -> event_family ev = f) ->
  existsb (family_eqb f) fs = false ->
  at_most 0 P m.
Proof.
  intros Hm HP Hf. apply at_most_none. eapply only_weaken; [|exact Hm].
  intros ev Hev. apply negb_true_iff. destruct (P ev) eqn:HPev; [|reflexivity].
  unfold in_families in Hev. rewrite (HP ev HPev), Hf in Hev. discriminate.
Qed.

End Rules.

(** Events outside the families [gs] when the run stays within [fs]. *)
Lemma in_families_subset fs gs ev :
  subset fs gs = true -> in_families fs ev = true -> in_families gs ev = true.
Proof.
  unfold subset, in_families. intros Hs H.
  apply existsb_exists in H as (f & Hf & Heq).
  rewrite forallb_forall in Hs. specialize (Hs f Hf).
  assert (event_family ev = f) as -> by (destruct (event_family ev), f; easy).
  exact Hs.
Qed.

End LogicFacts.

(** ** client.py *)

Module ClientFacts.
Import PyStr Browser Client Logic LogicFacts Site.
Local Open Scope prog_scope.

Lemma only_families `{Wd : World} {A} fs gs (m : M A) :
  only (in_families fs) m -> subset fs gs = true -> only (in_families gs) m.
Proof.
  intros Hm Hs. eapply only_weaken; [|exact Hm].
  intros ev. now apply in_families_subset.
Qed.

Create HintDb footprint discriminated.

(** Symbolic execution of a run whose events all have to satisfy a
    predicate: the rules of [only], down to the calls. *)
Ltac only_step :=
  first
    [ apply only_ret
    | apply only_raise
    | apply only_perform; intros ?; reflexivity
    | apply only_ask; intros ?; reflexivity
    | apply only_bind; [|intros ?]
    | apply only_try_except; [|intros ?]
    | apply only_for_each; intros ? ?
    | match goal with
      | H : In _ (_ :: _) |- _ => destruct H as [<-|H]
      | H : In _ [] |- _ => destruct H
      | |- only _ ((fun _ => _) _) => cbv beta
      | |- only _ (let _ := _ in _) => cbv zeta
      | |- only _ (if ?b then _ else _) => destruct b
      | |- only _ (match ?x with _ => _ end) => destruct x
      end
    | solve [eauto with footprint] ].

Ltac only_auto := repeat only_step.

Section Footprints.
Context {Wd : World}.
Variable cfg : Config.

Lemma get_apply_button_footprint :
  only (in_families [FApply]) get_apply_button.
Proof. unfold get_apply_button, is_visible. only_auto. Qed.

Lemma already_applied_footprint :
  only (in_families [FApply; FConfirm]) already_applied.
Proof.
  unfold already_applied, ALREADY_APPLIED_TEXT, get_apply_button, is_visible.
  only_auto.
Qed.

Lemma select_specific_resume_footprint mask :
  only (in_families [FResume]) (select_specific_resume mask).
Proof.
  unfold select_specific_resume, check_radio_or_click, is_visible. only_auto.
Qed.

Lemma select_any_resume_if_needed_footprint :
  only (in_families [FResume]) select_any_resume_if_needed.
Proof. unfold select_any_resume_if_needed, is_visible. only_auto. Qed.

Lemma check_consents_if_needed_footprint :
  only (in_families [FConsent]) check_consents_if_needed.
Proof. unfold check_consents_if_needed, is_visible. only_auto. Qed.

Lemma fill_cover_letter_with_verification_footprint text :
  only (in_families [FCover; FPause]) (fill_cover_letter_with_verification text).
Proof.
  unfold fill_cover_letter_with_verification, fill_attempt, try_textarea,
    write_and_read_back, textarea_selectors, reveal_cover_letter, is_visible,
    human_pause, human_pause_between.
  only_auto.
Qed.

Lemma find_enabled_submit_footprint :
  only (in_families [FSubmit]) find_enabled_submit.
Proof.
  unfold find_enabled_submit, try_submit_candidate, submit_candidates,
    is_visible.
  only_auto.
Qed.

Lemma make_shot_footprint page tag :
  only (in_families [FShot]) (make_shot page tag).
Proof. unfold make_shot. only_auto. Qed.

End Footprints.

#[export] Hint Extern 1 (only (in_families _) get_apply_button) =>
  (eapply only_families; [apply get_apply_button_footprint | reflexivity])
  : footprint.
#[export] Hint Extern 1 (only (in_families _) already_applied) =>
  (eapply only_families; [apply already_applied_footprint | reflexivity])
  : footprint.
#[export] Hint Extern 1 (only (in_families _) (select_specific_resume _)) =>
  (eapply only_families; [apply select_specific_resume_footprint | reflexivity])
  : footprint.
#[export] Hint Extern 1 (only (in_families _) select_any_resume_if_needed) =>
  (eapply only_families; [apply select_any_resume_if_needed_footprint | reflexivity])
  : footprint.
#[export] Hint Extern 1 (only (in_families _) check_consents_if_needed) =>
  (eapply only_families; [apply check_consents_if_needed_footprint | reflexivity])
  : footprint.
#[export] Hint Extern 1 (only (in_families _) (fill_cover_letter_with_verification _)) =>
  (eapply only_families;
   [apply fill_cover_letter_with_verification_footprint | reflexivity])
  : footprint.
#[export] Hint Extern 1 (only (in_families _) find_enabled_submit) =>
  (eapply only_families; [apply find_enabled_submit_footprint | reflexivity])
  : footprint.
#[export] Hint Extern 1 (only (in_families _) (make_shot _ _)) =>
  (eapply only_families; [apply make_shot_footprint | reflexivity])
  : footprint.


(** Symbolic execution of a run: the rules of [spec], branching on the
    outcome of every call. *)
Ltac spec_step :=
  first
    [ apply spec_ret
    | apply spec_raise
    | apply spec_perform; intros [?|?]
    | apply spec_ask; intros ?
    | apply spec_bind
    | apply spec_try_except
    | match goal with
      | |- spec (if ?b then _ else _) _ => destruct b eqn:?
      | |- spec (match ?x with _ => _ end) _ => destruct x eqn:?
      end
    | progress cbn beta iota zeta delta [negb andb orb] ].

Ltac spec_auto := repeat spec_step.

Section CoverLetter.
Context {Wd : World}.
Variable cfg : Config.

(** A run whose postcondition holds whatever happens. *)
Lemma spec_trivial {A} (m : M A) (Q : list event -> result A -> Prop) :
  only (fun _ => true) m -> (forall evs r, Q evs r) -> spec m Q.
Proof. intros Hm HQ. eapply spec_conseq; [exact Hm|]. intros. apply HQ. Qed.

Lemma textarea_never_seen_app evs2 evs1 :
  textarea_never_seen (evs2 ++ evs1) <->
  textarea_never_seen evs2 /\ textarea_never_seen evs1.
Proof.
  unfold textarea_never_seen. rewrite forallb_app. apply andb_true_iff.
Qed.

(** A loop all of whose turns go on when no textarea is seen goes on to its
    end. *)
Lemma for_each_unseen {A R} (xs : list A) (body : A -> M (option R)) :
  (forall x, In x xs ->
     spec (body x) (fun evs r => textarea_never_seen evs -> r = Ok None)) ->
  spec (for_each xs body) (fun evs r => textarea_never_seen evs -> r = Ok None).
Proof.
  induction xs as [|x xs IH]; intros H; simpl.
  - now apply spec_ret.
  - apply spec_bind. eapply spec_conseq; [apply H; now left|].
    intros evs1 [[v|]|e] H1.
    + apply spec_ret. simpl. intros Hq. specialize (H1 Hq). discriminate.
    + eapply spec_conseq; [apply IH; intros y Hy; apply H; now right|].
      intros evs2 r2 H2 Hq. apply textarea_never_seen_app in Hq as [Hq _].
      exact (H2 Hq).
    + intros Hq. specialize (H1 Hq). discriminate.
Qed.

Lemma try_textarea_unseen text sel :
  In sel textarea_selectors ->
  spec (try_textarea text sel)
       (fun evs r => textarea_never_seen evs -> r = Ok None).
Proof.
  intros Hin.
  unfold try_textarea, write_and_read_back, is_visible, human_pause,
    human_pause_between.
  destruct Hin as [<-|[<-|[<-|[]]]];
    spec_auto; solve [reflexivity | discriminate].
Qed.

Lemma fill_attempt_unseen text :
  spec (fill_attempt text)
       (fun evs r => textarea_never_seen evs -> r = Ok None).
Proof.
  unfold fill_attempt. apply spec_bind.
  eapply spec_conseq;
    [apply for_each_unseen; intros; now apply try_textarea_unseen|].
  intros evs1 [[v|]|e] H1.
  - apply spec_ret. simpl. intros Hq. specialize (H1 Hq). discriminate.
  - unfold human_pause, human_pause_between. spec_auto. reflexivity.
  - exact H1.
Qed.

Lemma reveal_cover_letter_returns :
  spec reveal_cover_letter (fun _ r => r = Ok tt).
Proof.
  unfold reveal_cover_letter, is_visible, human_pause, human_pause_between.
  simpl for_each.
  spec_auto; reflexivity.
Qed.

(** When no textarea is ever seen visible, the filler reports failure. *)
Lemma fill_cover_letter_unseen text :
  spec (fill_cover_letter_with_verification text)
       (fun evs r => textarea_never_seen evs -> r = Ok false).
Proof.
  unfold fill_cover_letter_with_verification. apply spec_bind.
  eapply spec_conseq; [apply reveal_cover_letter_returns|].
  intros evs0 r ->. apply spec_bind.
  eapply spec_conseq;
    [apply for_each_unseen; intros; apply fill_attempt_unseen|].
  intros evs1 [[v|]|e] H1.
  - apply spec_ret. simpl. intros Hq.
    apply textarea_never_seen_app in Hq as [Hq _].
    specialize (H1 Hq). discriminate.
  - apply spec_ret. reflexivity.
  - intros Hq. apply textarea_never_seen_app in Hq as [Hq _].
    specialize (H1 Hq). discriminate.
Qed.

End CoverLetter.


Lemma in_families_disjoint fs gs ev :
  forallb (fun f => negb (existsb (family_eqb f) gs)) fs = true ->
  in_families fs ev = true -> in_families gs ev = false.
Proof.
  unfold in_families. intros Hd H.
  apply existsb_exists in H as (f & Hf & Heq).
  rewrite forallb_forall in Hd. specialize (Hd f Hf).
  assert (event_family ev = f) as -> by (destruct (event_family ev), f; easy).
  now apply negb_true_iff.
Qed.

Lemma forallb_outside fs gs evs :
  forallb (fun f => negb (existsb (family_eqb f) gs)) fs = true ->
  forallb (in_families fs) evs = true ->
  forallb (fun ev => negb (in_families gs ev)) evs = true.
Proof.
  intros Hd H. apply forallb_forall. intros ev Hev.
  apply negb_true_iff. eapply in_families_disjoint; [exact Hd|].
  rewrite forallb_forall in H. auto.
Qed.

Section Submission.
Context {Wd : World}.
Variable cfg : Config.

(** Every run of the resume-and-submit part only adds events to the log. *)
Lemma select_resume_and_submit_extends :
  only (fun _ => true) (select_resume_and_submit cfg).
Proof.
  unfold select_resume_and_submit, select_specific_resume,
    check_radio_or_click, select_any_resume_if_needed,
    check_consents_if_needed, submit_cycle, find_enabled_submit,
    try_submit_candidate, click_and_verify, already_applied,
    get_apply_button, make_shot, is_visible, human_pause,
    human_pause_between.
  only_auto.
Qed.

(** The method on its own: when the cover letter is required and no
    cover-letter textarea is ever seen visible, [add_cover_letter_and_submit]
    returns [False], asks for the screenshot [no_cover_letter], and does
    nothing of resume selection, consent checking or submission. *)
Lemma no_cover_letter_no_submission (text : string) :
  require_cover_letter cfg = true ->
  spec (add_cover_letter_and_submit cfg text)
       (fun evs r =>
          textarea_never_seen evs ->
          r = Ok false
          /\ existsb (is_shot "no_cover_letter") evs = true
          /\ forallb (fun ev => negb (past_cover_letter ev)) evs = true).
Proof.
  intros Hreq. unfold add_cover_letter_and_submit. rewrite Hreq.
  apply spec_bind.
  eapply spec_conseq;
    [exact (spec_conj _ _ _ (fill_cover_letter_unseen text)
              (fill_cover_letter_with_verification_footprint text))|].
  intros evs1 [[|]|e] [H1 H2]; cbn beta iota.
  - (* the letter was verified: a textarea was seen *)
    cbn [andb negb].
    apply spec_trivial; [apply select_resume_and_submit_extends|].
    intros evs2 r Hq. apply textarea_never_seen_app in Hq as [_ Hq].
    specialize (H1 Hq). discriminate.
  - cbn [andb negb]. unfold make_shot. spec_auto; cbn beta;
      intros Hq; apply textarea_never_seen_app in Hq as [_ Hq];
      (split; [reflexivity|]); (split; [reflexivity|]);
      rewrite forallb_app; simpl;
      exact (forallb_outside [FCover; FPause] [FResume; FConsent; FSubmit]
               evs1 eq_refl H2).
  - intros Hq. specialize (H1 Hq). discriminate.
Qed.

End Submission.


(** The method run on a listing without a textarea. *)
Example no_textarea_method_run :
  let run := add_cover_letter_and_submit default_cfg cover
               (start no_textarea_site ∅) in
  fst run = Ok false
  /\ existsb (is_shot "no_cover_letter") (log (snd run)) = true
  /\ forallb (fun ev => negb (past_cover_letter ev)) (log (snd run)) = true.
Proof.
  intros run.
  destruct (no_cover_letter_no_submission
              (Wd := site_world no_textarea_site) default_cfg cover eq_refl
              (start no_textarea_site ∅) (fst run) (snd run)
              (surjective_pairing _))
    as (evs & Hlog & H).
  change (log (start no_textarea_site ∅)) with (@nil event) in Hlog.
  rewrite app_nil_r in Hlog. rewrite <- Hlog in H.
  apply H. vm_compute. reflexivity.
Qed.

Section Threshold.
Context {Wd : World}.

(** One strategy: once the textarea is visible and the text has been
    written and read back as [raw], the write is accepted exactly when the
    stripped read-back has at least [min(20, len(text) // 2)] characters;
    otherwise the loop goes on with the next strategy. *)
Lemma try_textarea_threshold (text : string) (sel : Selector)
    (rest : list Selector) (s s1 s2 : state) (raw : string) :
  is_visible (First (Loc sel)) 900 s = (Ok true, s1) ->
  write_and_read_back (First (Loc sel)) text s1 = (Ok raw, s2) ->
  let accepted :=
    Nat.min 20 (String.length text / 2) <=? String.length (strip raw) in
  try_textarea text sel s = (Ok (if accepted then Some true else None), s2)
  /\ for_each (sel :: rest) (try_textarea text) s
     = if accepted then (Ok (Some true), s2)
       else for_each rest (try_textarea text) s2.
Proof.
  intros Hvis Hwrite accepted.
  assert (Hstep : try_textarea text sel s
                  = (Ok (if accepted then Some true else None), s2)).
  { unfold try_textarea, try_except, bind. rewrite Hvis. cbn [negb].
    rewrite Hwrite. fold accepted. now destruct accepted. }
  split; [exact Hstep|].
  cbn [for_each]. unfold bind at 1. rewrite Hstep. now destruct accepted.
Qed.

End Threshold.

Example try_textarea_accepts :
  let s := start good_site ∅ in
  let ta := First (Loc COVER_LETTER_TEXTAREA) in
  let s1 := snd (is_visible ta 900 s) in
  let s2 := snd (write_and_read_back ta cover s1) in
  try_textarea cover COVER_LETTER_TEXTAREA s = (Ok (Some true), s2)
  /\ for_each [COVER_LETTER_TEXTAREA; COVER_LETTER_TEXTAREA_PLACEHOLDER]
       (try_textarea cover) s
     = (Ok (Some true), s2).
Proof.
  intros s ta s1 s2.
  apply (try_textarea_threshold (Wd := site_world good_site) cover
           COVER_LETTER_TEXTAREA [COVER_LETTER_TEXTAREA_PLACEHOLDER]
           s s1 s2 cover); reflexivity.
Qed.

(** What [find_enabled_submit] looks at: a visible candidate is taken when
    the value read for [disabled] is [None] or empty and the value read for
    [aria-disabled] is [None] or ["false"]. *)
Lemma try_submit_candidate_qualifies `{Wd : World} sel (s s1 s2 s3 : state)
    disabled aria :
  let btn := First (Loc sel) in
  is_visible btn 900 s = (Ok true, s1) ->
  perform (GetAttribute btn "disabled") s1 = (Ok disabled, s2) ->
  perform (GetAttribute btn "aria-disabled") s2 = (Ok aria, s3) ->
  try_submit_candidate sel s
  = (Ok (if negb (attr_truthy disabled) && aria_enabled aria
         then Some btn else None), s3).
Proof.
  intros btn Hvis Hd Ha. unfold try_submit_candidate, try_except, bind.
  fold btn. rewrite Hvis, Hd, Ha.
  now destruct (negb (attr_truthy disabled) && aria_enabled aria).
Qed.

(** C8 (the code departs from it): a visible submit button that carries the
    attribute [disabled] with the empty value, as [<button disabled>] does,
    is taken as enabled. *)
Theorem C8_disabled_button_selected :
  let run := find_enabled_submit (start disabled_site ∅) in
  fst run = Ok (Some (First (Loc SUBMIT_BUTTON)))
  /\ In (Called (GetAttribute (First (Loc SUBMIT_BUTTON)) "disabled")
                (Ok (Some "")))
        (log (snd run)).
Proof.
  intros run. split; [reflexivity|].
  vm_compute. right. left. reflexivity.
Qed.

(** C1 (the code departs from it): no resume entry matches the criterion
    and [fail_if_resume_not_found] is set; the screenshot is taken, but the
    method goes on, clicks the submit button and returns [True]. *)
Theorem C1_submitted_without_resume :
  let run := add_cover_letter_and_submit default_cfg cover
               (start no_resume_site ∅) in
  fail_if_resume_not_found default_cfg = true
  /\ forallb (fun t => negb (contains (resume_match default_cfg)
                                      (lower (strip t))))
             (resumes no_resume_site) = true
  /\ fst run = Ok true
  /\ existsb (is_shot "resume_not_found") (log (snd run)) = true
  /\ existsb is_submit_click (log (snd run)) = true.
Proof. intros run. vm_compute. repeat split. Qed.

(** The same method in hh_auto_apply_refactored.py returns [False] there,
    without any click on a submit control. *)
Lemma refactored_stops_without_resume `{Wd : World} cfg (s s1 : state) :
  fail_if_resume_not_found cfg = true ->
  select_specific_resume (resume_match cfg) s = (Ok false, s1) ->
  exists s' r,
    Refactored.select_resume_and_submit cfg s = (Ok false, s')
    /\ log s' = Called (Screenshot "resume_not_found") r :: log s1.
Proof.
  intros Hfail Hsel.
  unfold Refactored.select_resume_and_submit, bind. rewrite Hsel, Hfail.
  cbn [negb andb]. unfold make_shot, try_except, perform, ret.
  destruct (handle Wd (Screenshot "resume_not_found") (world s1)) as [[[]|e] w];
    eexists; eexists; split; reflexivity.
Qed.

Example refactored_run_without_resume :
  let run := Refactored.add_cover_letter_and_submit default_cfg cover
               (start no_resume_site ∅) in
  fst run = Ok false
  /\ existsb (is_shot "resume_not_found") (log (snd run)) = true
  /\ existsb is_submit_click (log (snd run)) = false.
Proof. intros run. vm_compute. repeat split. Qed.


(** *** Bounded retries *)

Lemma opens_submit_cycle_family ev :
  opens_submit_cycle ev = true -> event_family ev = FSubmit.
Proof.
  destruct ev as [T o r|T q v]; [destruct o|]; simpl; try discriminate.
  unfold locator_family. destruct (root l) as [sel| | | | |]; try discriminate.
  now destruct sel.
Qed.

Lemma opens_fill_attempt_family ev :
  opens_fill_attempt ev = true -> event_family ev = FCover.
Proof.
  destruct ev as [T o r|T q v]; [destruct o|]; simpl; try discriminate.
  unfold locator_family. destruct (root l) as [sel| | | | |]; try discriminate.
  now destruct sel.
Qed.

Lemma is_submit_click_family ev :
  is_submit_click ev = true -> event_family ev = FSubmit.
Proof.
  destruct ev as [T o r|T q v]; [destruct o|]; simpl; try discriminate.
  now destruct (locator_family l).
Qed.

Create HintDb footprint_exact discriminated.
Create HintDb pfamily discriminated.
Create HintDb bounds discriminated.

#[export] Hint Resolve get_apply_button_footprint already_applied_footprint
  select_specific_resume_footprint select_any_resume_if_needed_footprint
  check_consents_if_needed_footprint
  fill_cover_letter_with_verification_footprint find_enabled_submit_footprint
  make_shot_footprint : footprint_exact.
#[export] Hint Resolve opens_submit_cycle_family opens_fill_attempt_family
  is_submit_click_family : pfamily.

(** Counting the events of a kind along a run: the rules of [at_most]; the
    bound is built up as the run is followed. *)
Ltac at_most_step :=
  lazymatch goal with
  | |- at_most _ _ (ret _) => apply at_most_ret
  | |- at_most _ _ (raise _) => apply at_most_raise
  | |- at_most _ _ (perform _) =>
      first [ apply at_most_perform_none; intros ?; reflexivity
            | apply at_most_perform ]
  | |- at_most _ _ (ask _) => apply at_most_ask; intros ?; reflexivity
  | |- at_most _ _ (bind _ _) => eapply at_most_bind; [|intros ?]
  | |- at_most _ _ (try_except _ _) => eapply at_most_try_except; [|intros ?]
  | |- at_most _ _ (if _ then _ else _) => eapply at_most_if
  | |- at_most _ _ (match _ with Some _ => _ | None => _ end) =>
      eapply at_most_option; [intros ?|]
  | |- at_most _ _ (for_each _ _) => eapply at_most_for_each; intros ?
  | |- at_most _ _ ((fun _ => _) _) => cbv beta
  | |- at_most _ _ (let _ := _ in _) => cbv zeta
  | |- at_most _ _ _ =>
      first
        [ solve [eauto with bounds]
        | eapply at_most_zero_of_footprint;
          [ solve [eauto with footprint_exact]
          | solve [eauto with pfamily]
          | reflexivity ] ]
  end.

Ltac at_most_auto :=
  eapply at_most_le; cycle 1; [repeat at_most_step | cbn; lia].

Section Bounds.
Context {Wd : World}.
Variable cfg : Config.

Lemma find_enabled_submit_opens_once :
  at_most 1 opens_submit_cycle find_enabled_submit.
Proof.
  unfold find_enabled_submit, submit_candidates, try_submit_candidate,
    is_visible.
  cbn [for_each]. at_most_auto.
Qed.

Lemma find_enabled_submit_no_click :
  at_most 0 is_submit_click find_enabled_submit.
Proof.
  unfold find_enabled_submit, submit_candidates, try_submit_candidate,
    is_visible.
  cbn [for_each]. at_most_auto.
Qed.

Hint Resolve find_enabled_submit_opens_once find_enabled_submit_no_click
  : bounds.

Lemma submit_cycle_opens_once :
  at_most 1 opens_submit_cycle submit_cycle.
Proof.
  unfold submit_cycle, click_and_verify, human_pause, human_pause_between.
  at_most_auto.
Qed.

Lemma submit_cycle_two_clicks :
  at_most 2 is_submit_click submit_cycle.
Proof.
  unfold submit_cycle, click_and_verify, human_pause, human_pause_between.
  at_most_auto.
Qed.

Hint Resolve submit_cycle_opens_once submit_cycle_two_clicks : bounds.

Lemma submission_three_cycles text :
  at_most 3 opens_submit_cycle (add_cover_letter_and_submit cfg text).
Proof.
  unfold add_cover_letter_and_submit, select_resume_and_submit, range.
  at_most_auto.
Qed.

Lemma submission_six_clicks text :
  at_most 6 is_submit_click (add_cover_letter_and_submit cfg text).
Proof.
  unfold add_cover_letter_and_submit, select_resume_and_submit, range.
  at_most_auto.
Qed.

Lemma fill_attempt_opens_once text :
  at_most 1 opens_fill_attempt (fill_attempt text).
Proof.
  unfold fill_attempt, textarea_selectors, try_textarea, write_and_read_back,
    is_visible, human_pause, human_pause_between.
  cbn [for_each]. at_most_auto.
Qed.

Lemma fill_attempt_three_writes text :
  at_most 3 is_fill (fill_attempt text).
Proof.
  unfold fill_attempt, textarea_selectors, try_textarea, write_and_read_back,
    is_visible, human_pause, human_pause_between.
  cbn [for_each]. at_most_auto.
Qed.

Hint Resolve fill_attempt_opens_once fill_attempt_three_writes : bounds.

Lemma fill_three_attempts text :
  at_most 3 opens_fill_attempt (fill_cover_letter_with_verification text).
Proof.
  unfold fill_cover_letter_with_verification, reveal_cover_letter, is_visible,
    human_pause, human_pause_between, range.
  cbn [for_each]. at_most_auto.
Qed.

Lemma fill_nine_writes text :
  at_most 9 is_fill (fill_cover_letter_with_verification text).
Proof.
  unfold fill_cover_letter_with_verification, reveal_cover_letter, is_visible,
    human_pause, human_pause_between, range.
  cbn [for_each]. at_most_auto.
Qed.

(** C4: a run of [add_cover_letter_and_submit] opens at most 3 cycles of
    the submission loop (with at most 6 clicks on a submit control), a run
    of [fill_cover_letter_with_verification] opens at most 3 attempts (with
    at most 9 writes), and both always end with a result. *)
Theorem C4_bounded_retries (text : string) :
  at_most 3 opens_submit_cycle (add_cover_letter_and_submit cfg text)
  /\ at_most 6 is_submit_click (add_cover_letter_and_submit cfg text)
  /\ at_most 3 opens_fill_attempt (fill_cover_letter_with_verification text)
  /\ at_most 9 is_fill (fill_cover_letter_with_verification text)
  /\ (forall s, exists r s', add_cover_letter_and_submit cfg text s = (r, s'))
  /\ (forall s, exists r s',
        fill_cover_letter_with_verification text s = (r, s')).
Proof.
  repeat split.
  - apply submission_three_cycles.
  - apply submission_six_clicks.
  - apply fill_three_attempts.
  - apply fill_nine_writes.
  - intros s. destruct (add_cover_letter_and_submit cfg text s) as [r s']. eauto.
  - intros s.
    destruct (fill_cover_letter_with_verification text s) as [r s']. eauto.
Qed.

End Bounds.


(** *** The listing workflow *)

Section Workflow.
Context {Wd : World}.
Variable cfg : Config.
Variable und : Undeclared.

(** [already_applied] answers [True] exactly when it saw a confirmation
    phrase or saw no apply entry point. *)
Lemma already_applied_result :
  spec already_applied
       (fun evs r =>
          r = Ok (existsb confirmation_seen evs
                  || negb (existsb entry_point_seen evs))).
Proof.
  unfold already_applied, ALREADY_APPLIED_TEXT, get_apply_button, is_visible.
  cbn [for_each]. spec_auto; reflexivity.
Qed.

(** What [apply_to_vacancy] does once the listing is opened. *)
Lemma apply_to_vacancy_opened url text title (s s1 : state) :
  opened url s = (Ok title, s1) ->
  apply_to_vacancy cfg und url text s
  = try_finally
      (guarded (Some ThePage) (Some title) url
         (process_listing cfg und title text) ret)
      (close_page (Some ThePage)) s1.
Proof.
  unfold opened, apply_to_vacancy, guarded, try_finally, human_pause, bind.
  intros H.
  destruct (perform NewPage s) as [[[]|?] sa]; [|discriminate].
  destruct (perform OnConsole sa) as [[[]|?] sb]; [|discriminate].
  destruct (perform (SetDefaultTimeout 30000) sb) as [[[]|?] sc]; [|discriminate].
  destruct (perform (Goto url 30000) sc) as [[[]|?] sd]; [|discriminate].
  destruct (perform Pause sd) as [[[]|?] se]; [|discriminate].
  rewrite H. reflexivity.
Qed.

End Workflow.

End ClientFacts.

(** ** apply_to_vacancy *)

Module WorkflowFacts.
Import PyStr Browser Client Logic LogicFacts ClientFacts Site.
Local Open Scope prog_scope.

Section Workflow.
Context {Wd : World}.
Variable cfg : Config.
Variable und : Undeclared.

Lemma close_page_log (s : state) :
  exists r, log (snd (close_page (Some ThePage) s)) = Called Close r :: log s.
Proof.
  unfold close_page, try_except, perform, ret.
  destruct (handle Wd Close (world s)) as [[[]|e] w]; eexists; reflexivity.
Qed.

(** C5: on an opened listing where [already_applied] sees a confirmation
    phrase, or sees no apply entry point, [apply_to_vacancy] returns
    [SKIPPED_ALREADY_APPLIED], and from the check on it does nothing of
    cover-letter filling, resume selection, consent checking or
    submission. *)
Theorem C5_already_applied_short_circuit (url text title : string)
    (s s1 s2 : state) (r : result bool) (evs : list event) :
  opened url s = (Ok title, s1) ->
  already_applied s1 = (r, s2) ->
  log s2 = (evs ++ log s1)%list ->
  existsb confirmation_seen evs = true \/ existsb entry_point_seen evs = false ->
  exists s' evs',
    apply_to_vacancy cfg und url text s
    = (Ok (SKIPPED_ALREADY_APPLIED, title), s')
    /\ log s' = (evs' ++ log s1)%list
    /\ forallb (fun ev => negb (past_applied_check ev)) evs' = true.
Proof.
  intros Hopen Happlied Hlog Hseen.
  destruct (already_applied_result _ _ _ Happlied) as (evs0 & Hlog0 & Hr).
  destruct (already_applied_footprint _ _ _ Happlied) as (evs1 & Hlog1 & Hfp).
  rewrite Hlog in Hlog0, Hlog1.
  apply app_inv_tail in Hlog0 as <-. apply app_inv_tail in Hlog1 as <-.
  assert (r = Ok true) as ->.
  { rewrite Hr. destruct Hseen as [-> | ->]; [reflexivity|].
    now rewrite orb_true_r. }
  destruct (close_page_log s2) as (rc & Hclose).
  exists (snd (close_page (Some ThePage) s2)), (Called Close rc :: evs).
  split; [|split].
  - rewrite (apply_to_vacancy_opened cfg und url text title s s1 Hopen).
    unfold try_finally, guarded, process_listing, bind.
    rewrite Happlied. reflexivity.
  - rewrite Hclose, Hlog. reflexivity.
  - cbn [forallb]. apply andb_true_intro. split; [reflexivity|].
    exact (forallb_outside [FApply; FConfirm]
             [FCover; FResume; FConsent; FSubmit] evs eq_refl Hfp).
Qed.

(** No [except] clause of [apply_to_vacancy] handles an exception that is
    not a navigation timeout: evaluating the class name of the second
    clause raises [NameError], as client.py does not import
    [TargetClosedError]. *)
Lemma except_clauses_unclassified page title url e (s : state) :
  e <> PWTimeoutError ->
  except_clauses page title url e s = (Raise (NameError "TargetClosedError"), s).
Proof.
  intros He. unfold except_clauses, load_global, bind. cbn.
  destruct e; [congruence | reflexivity ..].
Qed.

(** C3 (the code departs from it): an exception raised while the opened
    listing is processed, other than a navigation timeout, is not turned
    into [ERROR]: [apply_to_vacancy] raises [NameError].  The page is
    closed; no screenshot is taken. *)
Theorem C3_unclassified_exception_escapes (url text title : string)
    (s s1 s2 : state) (e : exn) :
  opened url s = (Ok title, s1) ->
  process_listing cfg und title text s1 = (Raise e, s2) ->
  e <> PWTimeoutError ->
  exists s' rc,
    apply_to_vacancy cfg und url text s
    = (Raise (NameError "TargetClosedError"), s')
    /\ log s' = Called Close rc :: log s2.
Proof.
  intros Hopen Hproc He.
  destruct (close_page_log s2) as (rc & Hclose).
  exists (snd (close_page (Some ThePage) s2)), rc. split; [|exact Hclose].
  rewrite (apply_to_vacancy_opened cfg und url text title s s1 Hopen).
  unfold try_finally, guarded. rewrite Hproc.
  now rewrite (except_clauses_unclassified _ _ _ e s2 He).
Qed.

(** The same when the navigation itself fails. *)
Lemma navigation_error_escapes (url text : string) (s s1 s2 s3 : state) (e : exn) :
  perform NewPage s = (Ok tt, s1) ->
  perform OnConsole s1 = (Ok tt, s2) ->
  (perform (SetDefaultTimeout 30000) ;;
   perform (Goto url 30000) ;;
   human_pause) s2 = (Raise e, s3) ->
  e <> PWTimeoutError ->
  apply_to_vacancy cfg und url text s
  = (Raise (NameError "TargetClosedError"),
     snd (close_page (Some ThePage) s3)).
Proof.
  intros H1 H2 H3 He. unfold apply_to_vacancy, guarded, try_finally.
  rewrite H1, H2, H3.
  now rewrite (except_clauses_unclassified _ _ _ e s3 He).
Qed.

End Workflow.

Lemma C5_witness :
  let s := start_applied good_site ∅ in
  exists s' evs',
    apply_to_vacancy default_cfg as_shipped "https://hh.ru/vacancy/12345678"
      cover s
    = (Ok (SKIPPED_ALREADY_APPLIED, "Python developer"), s')
    /\ log s' = (evs' ++ log (snd (opened "https://hh.ru/vacancy/12345678" s)))%list
    /\ forallb (fun ev => negb (past_applied_check ev)) evs' = true.
Proof.
  intros s.
  set (s1 := snd (opened "https://hh.ru/vacancy/12345678" s)).
  apply (C5_already_applied_short_circuit (Wd := site_world good_site)
           default_cfg as_shipped "https://hh.ru/vacancy/12345678" cover
           "Python developer" s s1 (snd (already_applied s1))
           (fst (already_applied s1))
           (firstn 1 (log (snd (already_applied s1)))));
    [ vm_compute; reflexivity | vm_compute; reflexivity
    | vm_compute; reflexivity | left; vm_compute; reflexivity ].
Defined.

Lemma C3_witness :
  let s := start good_site ∅ in
  exists s' rc,
    apply_to_vacancy default_cfg as_shipped "https://hh.ru/vacancy/12345678"
      cover s
    = (Raise (NameError "TargetClosedError"), s')
    /\ log s'
       = Called Close rc
         :: log (snd (process_listing default_cfg as_shipped "Python developer"
                        cover
                        (snd (opened "https://hh.ru/vacancy/12345678" s)))).
Proof.
  intros s.
  apply (C3_unclassified_exception_escapes (Wd := site_world good_site)
           default_cfg as_shipped "https://hh.ru/vacancy/12345678" cover
           "Python developer" s
           (snd (opened "https://hh.ru/vacancy/12345678" s))
           _ (AttributeError "use_ai_cover_letter"));
    [vm_compute; reflexivity | vm_compute; reflexivity | discriminate].
Defined.

(** A listing that cannot be reached: the network error leaves
    [apply_to_vacancy] as a [NameError]. *)
Example unreachable_listing :
  fst (apply_to_vacancy default_cfg completed "https://hh.ru/vacancy/12345678"
         cover (start unreachable_site ∅))
  = Raise (NameError "TargetClosedError").
Proof. reflexivity. Qed.

End WorkflowFacts.

(** ** persistence.py and the loop of app.py *)

Module AppFacts.
Import PyStr Browser Client Logic LogicFacts ClientFacts Site App.
Local Open Scope prog_scope.

Section KeepsSeen.
Context {Wd : World}.

Lemma keeps_ret {A} (a : A) : keeps_seen (ret a).
Proof. intros s r s' H. now injection H as <- <-. Qed.

Lemma keeps_raise {A} e : keeps_seen (A := A) (raise e).
Proof. intros s r s' H. now injection H as <- <-. Qed.

Lemma keeps_perform {T} (o : op T) : keeps_seen (perform o).
Proof.
  intros s r s' H. unfold perform in H.
  destruct (handle Wd o (world s)). now injection H as <- <-.
Qed.

Lemma keeps_ask {T} (q : query T) : keeps_seen (ask q).
Proof.
  intros s r s' H. unfold ask in H.
  destruct (observe Wd q (world s)). now injection H as <- <-.
Qed.

Lemma keeps_bind {A B} (m : M A) (k : A -> M B) :
  keeps_seen m -> (forall a, keeps_seen (k a)) -> keeps_seen (bind m k).
Proof.
  intros Hm Hk s r s' H. unfold bind in H.
  destruct (m s) as [[a|e] s1] eqn:E.
  - rewrite (Hk _ _ _ _ H). eauto.
  - injection H as <- <-. eauto.
Qed.

Lemma keeps_try_except {A} (m : M A) (h : exn -> M A) :
  keeps_seen m -> (forall e, keeps_seen (h e)) -> keeps_seen (try_except m h).
Proof.
  intros Hm Hh s r s' H. unfold try_except in H.
  destruct (m s) as [[a|e] s1] eqn:E.
  - injection H as <- <-. eauto.
  - rewrite (Hh _ _ _ _ H). eauto.
Qed.

Lemma keeps_try_finally {A} (m : M A) (f : M unit) :
  keeps_seen m -> keeps_seen f -> keeps_seen (try_finally m f).
Proof.
  intros Hm Hf s r s' H. unfold try_finally in H.
  destruct (m s) as [r1 s1] eqn:E. injection H as <- <-.
  destruct (f s1) as [r2 s2] eqn:E2. simpl.
  rewrite (Hf _ _ _ E2). eauto.
Qed.

Lemma keeps_for_each {A R} (xs : list A) (body : A -> M (option R)) :
  (forall x, keeps_seen (body x)) -> keeps_seen (for_each xs body).
Proof.
  intros H. induction xs as [|x xs IH]; simpl.
  - apply keeps_ret.
  - apply keeps_bind; [apply H|]. intros [v|]; [apply keeps_ret | exact IH].
Qed.

End KeepsSeen.

(** Following a run that never writes the table. *)
Ltac keeps_step :=
  first
    [ apply keeps_ret
    | apply keeps_raise
    | apply keeps_perform
    | apply keeps_ask
    | apply keeps_bind; [|intros ?]
    | apply keeps_try_except; [|intros ?]
    | apply keeps_try_finally
    | apply keeps_for_each; intros ?
    | match goal with
      | |- keeps_seen ((fun _ => _) _) => cbv beta
      | |- keeps_seen (let _ := _ in _) => cbv zeta
      | |- keeps_seen (if ?b then _ else _) => destruct b
      | |- keeps_seen (match ?x with _ => _ end) => destruct x
      end ].

Section Client.
Context {Wd : World}.
Variable cfg : Config.
Variable und : Undeclared.

Lemma except_clauses_keeps_seen page title url e :
  keeps_seen (except_clauses page title url e).
Proof.
  unfold except_clauses, load_global, return_error, make_shot.
  repeat keeps_step.
Qed.

Lemma keeps_guarded {A} page title url (m : M A) k :
  keeps_seen m -> (forall a, keeps_seen (k a)) ->
  keeps_seen (guarded page title url m k).
Proof.
  intros Hm Hk s r s' H. unfold guarded in H.
  destruct (m s) as [[a|e] s1] eqn:E.
  - rewrite (Hk _ _ _ _ H). eauto.
  - rewrite (except_clauses_keeps_seen _ _ _ _ _ _ _ H). eauto.
Qed.

Lemma process_listing_keeps_seen title text :
  keeps_seen (process_listing cfg und title text).
Proof.
  unfold process_listing, add_cover_letter_and_submit,
    select_resume_and_submit, fill_cover_letter_with_verification,
    fill_attempt, try_textarea, write_and_read_back, reveal_cover_letter,
    select_specific_resume, check_radio_or_click,
    select_any_resume_if_needed, check_consents_if_needed, submit_cycle,
    find_enabled_submit, try_submit_candidate, click_and_verify,
    already_applied, get_apply_button, _get_vacancy_description,
    cfg_ai_field, Selectors_FOREIGN_COUNTRY_MODAL_BUTTON, make_shot,
    is_visible, human_pause, human_pause_between.
  repeat keeps_step.
Qed.

(** The client never writes the table. *)
Lemma apply_to_vacancy_keeps_seen url text :
  keeps_seen (apply_to_vacancy cfg und url text).
Proof.
  unfold apply_to_vacancy.
  apply keeps_guarded; [apply keeps_perform|]. intros _.
  apply keeps_try_finally; [|unfold close_page; repeat keeps_step].
  apply keeps_guarded; [apply keeps_perform|]. intros _.
  apply keeps_guarded; [unfold human_pause; repeat keeps_step|]. intros _.
  apply keeps_bind; [unfold read_title; repeat keeps_step|]. intros title.
  apply keeps_guarded; [apply process_listing_keeps_seen|].
  intros a. apply keeps_ret.
Qed.

End Client.


(** Case analysis on the outcome of every call of a run. *)
Ltac run_calls Wd :=
  repeat match goal with
         | |- context [handle Wd ?o ?w] =>
             destruct (handle Wd o w) as [[?|?] ?];
             cbv beta iota zeta; cbn [world log seen]
         | |- context [observe Wd ?q ?w] =>
             destruct (observe Wd q w) as [? ?];
             cbv beta iota zeta; cbn [world log seen]
         end.

Lemma log_nil {A} (l : list A) : l = ([] ++ l)%list.
Proof. reflexivity. Qed.

Lemma log_cons {A} (x : A) evs l l' :
  l' = (evs ++ l)%list -> x :: l' = ((x :: evs) ++ l)%list.
Proof. now intros ->. Qed.

(** The events a run added, read off its final log. *)
Ltac new_events := repeat (simple eapply log_cons); simple apply log_nil.

Section SeenRepo.
Context {Wd : World}.

(** [is_seen] tells whether the identifier has a row, and writes nothing. *)
Lemma is_seen_spec vac_id (s s' : state) b :
  is_seen vac_id s = (Ok b, s') ->
  seen s' = seen s
  /\ b = match seen s !! vac_id with Some _ => true | None => false end.
Proof.
  unfold is_seen, with_conn, bind, perform, get_seen, ret.
  run_calls Wd; intros H; try discriminate; now injection H as <- <-.
Qed.

(** [mark_seen] always returns; it starts by connecting; when its
    transaction is committed the identifier has a row, stamped with the time
    read if it had none; otherwise the table is as before. *)
Lemma mark_seen_spec vac_id (s : state) :
  exists s' evs,
    mark_seen vac_id s = (Ok tt, s')
    /\ log s' = (evs ++ log s)%list
    /\ (exists rc, List.last evs (Asked Sleep tt) = Called Connect rc)
    /\ if existsb is_commit evs
       then exists now,
              In (Asked UtcNow now) evs
              /\ seen s' = match seen s !! vac_id with
                           | Some _ => seen s
                           | None => <[vac_id := now]> (seen s)
                           end
       else seen s' = seen s.
Proof.
  unfold mark_seen, with_conn, try_except, bind, perform, ask, get_seen,
    put_seen, ret.
  run_calls Wd;
    (eexists; eexists; split; [reflexivity|]; cbn [world log seen];
     split; [new_events|]; split; [eexists; reflexivity|];
     cbv [existsb is_commit orb];
     first [ reflexivity
           | eexists; split; [cbv [In]; eauto 8 | reflexivity] ]).
Qed.

(** [cleanup] keeps the rows stamped at or after the cutoff: a row is kept
    for [ttl_days] after its stamp. *)
Lemma cleanup_keeps ttl_days vac_id ts (s s' : state) r :
  cleanup ttl_days s = (r, s') ->
  seen s !! vac_id = Some ts ->
  (fst (observe Wd UtcNow (world s)) - ttl_days * day <= ts)%Z ->
  seen s' !! vac_id = Some ts.
Proof.
  unfold cleanup. destruct (ttl_days <=? 0)%Z.
  - intros H. now injection H as <- <-.
  - unfold with_conn, bind, perform, ask, get_seen, put_seen, ret.
    destruct (observe Wd UtcNow (world s)) as [now w0].
    cbv beta iota zeta; cbn [world log seen fst].
    run_calls Wd; intros H Hrow Hnow; injection H as <- <-;
      cbn [seen]; try exact Hrow;
      apply map_lookup_filter_Some; split; auto.
Qed.

End SeenRepo.


Section Run.
Context {Wd : World}.
Variable cfg : Config.
Variable und : Undeclared.
Variable dry_run : bool.
Variable cover_text : string.

Lemma kept_within_ttl_holds vac_id ts : kept_within_ttl vac_id ts.
Proof. intros ttl_days t t' r. apply cleanup_keeps. Qed.

(** A listing that has a row is passed over. *)
Lemma passed_over_when_seen vurl ts (t : state) :
  seen t !! Utils.extract_vacancy_id vurl = Some ts ->
  passed_over cfg und dry_run cover_text vurl t.
Proof.
  intros Hrow l t1 t2 b Hstop Hmax Hseen.
  pose proof (keeps_ask StopFlag _ _ _ Hstop) as Ht1.
  destruct (is_seen_spec _ _ _ _ Hseen) as [_ Hb].
  rewrite Ht1, Hrow in Hb. subst b.
  unfold loop_body, bind. rewrite Hstop.
  apply Z.leb_gt in Hmax. rewrite Hmax, Hseen. reflexivity.
Qed.

(** What follows [mark_seen] in the body of the loop writes nothing to the
    table, and it ends the turn unless the pause that closes it raises. *)
Lemma loop_tail_keeps result title vurl (l : locals) stats (s : state) :
  exists r s' evs,
    (l' <- match result with
           | SUCCESS =>
               try_except
                 (perform (CsvAppend (if truthy title then title else vurl) vurl))
                 (fun _ => ret tt) ;;
               ret {| l_applies_done := (l_applies_done l + 1)%Z;
                      l_stats := bump K_applies_done stats |}
           | SKIPPED_ALREADY_APPLIED =>
               ret {| l_applies_done := l_applies_done l;
                      l_stats := bump K_skipped_already stats |}
           | ERROR =>
               ret {| l_applies_done := l_applies_done l;
                      l_stats := bump K_errors stats |}
           end ;;
     human_pause ;;
     ret (Next, l')) s
    = (r, s')
    /\ seen s' = seen s
    /\ log s' = (evs ++ log s)%list
    /\ ((exists l', r = Ok (Next, l'))
        \/ (exists e, r = Raise e
                      /\ hd_error evs = Some (Called Pause (Raise e)))).
Proof.
  unfold human_pause, try_except, bind, perform, ask, ret.
  destruct result; run_calls Wd;
    (do 3 eexists; split; [reflexivity|]; cbn [world log seen];
     split; [reflexivity|]; split; [new_events|];
     first [ left; eexists; reflexivity
           | right; eexists; split; reflexivity ]).
Qed.

(** C10 (amended): a listing that is not in the table and whose processing
    returns an outcome, whichever it is, has [mark_seen] called on its
    identifier; what follows in the turn of the loop writes nothing to the
    table, and the turn ends unless the pause that closes it raises.  When
    the transaction of [mark_seen] is committed, the identifier has a row
    stamped with the time read; [cleanup] keeps that row for the time to
    live, and as long as the row is there the loop passes over the listing.
    When it is not committed, the failure is ignored and the listing has no
    row. *)
Theorem C10_processed_listing_marked_seen (vurl : string) (l : locals)
    (s s1 s2 s3 : state) (result : ApplyResult) (title : string) :
  let vac_id := Utils.extract_vacancy_id vurl in
  ask StopFlag s = (Ok false, s1) ->
  (l_applies_done l < max_applies cfg)%Z ->
  is_seen vac_id s1 = (Ok false, s2) ->
  (if dry_run then ret (SUCCESS, "(dry-run)")
   else apply_to_vacancy cfg und vurl cover_text) s2
  = (Ok (result, title), s3) ->
  exists s4 evs,
    mark_seen vac_id s3 = (Ok tt, s4)
    /\ log s4 = (evs ++ log s3)%list
    /\ (exists rc, List.last evs (Asked Sleep tt) = Called Connect rc)
    /\ (exists r s5 evs',
          loop_body cfg und dry_run cover_text vurl l s = (r, s5)
          /\ seen s5 = seen s4
          /\ log s5 = (evs' ++ log s4)%list
          /\ ((exists l', r = Ok (Next, l'))
              \/ (exists e, r = Raise e
                            /\ hd_error evs' = Some (Called Pause (Raise e)))))
    /\ (existsb is_commit evs = true ->
        exists now,
          In (Asked UtcNow now) evs
          /\ seen s4 !! vac_id = Some now
          /\ kept_within_ttl vac_id now
          /\ forall t, seen t !! vac_id = Some now ->
                       passed_over cfg und dry_run cover_text vurl t)
    /\ (existsb is_commit evs = false -> seen s4 !! vac_id = None).
Proof.
  intros vac_id Hstop Hmax Hseen Happly.
  assert (Hnone : seen s3 !! vac_id = None).
  { destruct (is_seen_spec _ _ _ _ Hseen) as [Hs2 Hb].
    assert (seen s3 = seen s2) as ->.
    { destruct dry_run.
      - exact (keeps_ret _ _ _ _ Happly).
      - exact (apply_to_vacancy_keeps_seen cfg und vurl cover_text _ _ _ Happly). }
    rewrite Hs2. destruct (seen s1 !! vac_id); [discriminate | reflexivity]. }
  destruct (mark_seen_spec vac_id s3) as (s4 & evs & Hmark & Hlog & Hfirst & Hrow).
  exists s4, evs. split; [exact Hmark|]. split; [exact Hlog|].
  split; [exact Hfirst|]. split; [|split].
  - destruct (loop_tail_keeps result title vurl l
                (bump K_opened (l_stats l)) s4)
      as (r & s5 & evs' & Htail & Hkeep & Hlog' & Hend).
    exists r, s5, evs'. split; [|repeat split; assumption].
    unfold loop_body. unfold bind at 1. rewrite Hstop.
    apply Z.leb_gt in Hmax. rewrite Hmax.
    unfold bind at 1. fold vac_id. rewrite Hseen.
    unfold bind at 1. rewrite Happly.
    unfold bind at 1. rewrite Hmark. exact Htail.
  - intros Hc. rewrite Hc in Hrow. destruct Hrow as (now & Hin & Hs4).
    exists now. split; [exact Hin|]. split; [|split].
    + rewrite Hs4, Hnone. apply lookup_insert_eq.
    + apply kept_within_ttl_holds.
    + intros t Ht. now apply passed_over_when_seen with (ts := now).
  - intros Hc. rewrite Hc in Hrow. now rewrite Hrow.
Qed.

End Run.

Lemma C10_witness :
  let vurl := "https://hh.ru/vacancy/12345678?query=python" in
  let s := start timeout_site ∅ in
  let s1 := snd (ask StopFlag s) in
  let s2 := snd (is_seen "12345678" s1) in
  let s3 := snd (apply_to_vacancy default_cfg as_shipped vurl cover s2) in
  exists s4 evs,
    mark_seen "12345678" s3 = (Ok tt, s4)
    /\ log s4 = (evs ++ log s3)%list
    /\ (exists rc, List.last evs (Asked Sleep tt) = Called Connect rc)
    /\ (exists r s5 evs',
          loop_body default_cfg as_shipped false cover vurl
            {| l_applies_done := 0; l_stats := no_stats |} s
          = (r, s5)
          /\ seen s5 = seen s4
          /\ log s5 = (evs' ++ log s4)%list
          /\ ((exists l', r = Ok (Next, l'))
              \/ (exists e, r = Raise e
                            /\ hd_error evs' = Some (Called Pause (Raise e)))))
    /\ (existsb is_commit evs = true ->
        exists now,
          In (Asked UtcNow now) evs
          /\ seen s4 !! "12345678" = Some now
          /\ kept_within_ttl (Wd := site_world timeout_site) "12345678" now
          /\ forall t : @state (site_world timeout_site),
               seen t !! "12345678" = Some now ->
               passed_over default_cfg as_shipped false cover vurl t)
    /\ (existsb is_commit evs = false -> seen s4 !! "12345678" = None).
Proof.
  intros vurl s s1 s2 s3.
  apply (C10_processed_listing_marked_seen
           (Wd := site_world timeout_site) default_cfg as_shipped false
           cover vurl {| l_applies_done := 0; l_stats := no_stats |}
           s s1 s2 s3 ERROR "");
    [ vm_compute; reflexivity | reflexivity
    | vm_compute; reflexivity | vm_compute; reflexivity ].
Defined.

(** C10, as stated, fails: the listing ends in [ERROR] and [mark_seen] is
    called, but the INSERT fails, which [mark_seen] ignores; met again on
    the next page of results, the listing is opened a second time. *)
Lemma C10_counterexample :
  let vurl := "https://hh.ru/vacancy/12345678" in
  let run1 := for_links default_cfg as_shipped false cover [vurl]
                {| l_applies_done := 0; l_stats := no_stats |}
                (start timeout_readonly_site ∅) in
  let l1 := match fst run1 with
            | Ok l => l
            | Raise _ => {| l_applies_done := 0; l_stats := no_stats |}
            end in
  let run2 := for_links default_cfg as_shipped false cover [vurl] l1 (snd run1) in
  (exists l, fst run1 = Ok l /\ errors (l_stats l) = 1%Z)
  /\ length (List.filter is_new_page (log (snd run1))) = 1
  /\ existsb (fun ev =>
                match ev with
                | Called (Execute (INSERT_OR_IGNORE id _)) (Raise _) =>
                    String.eqb id "12345678"
                | _ => false
                end) (log (snd run1)) = true
  /\ (exists l, fst run2 = Ok l /\ errors (l_stats l) = 2%Z)
  /\ length (List.filter is_new_page (log (snd run2))) = 2.
Proof.
  intros vurl run1 l1 run2.
  split; [eexists; split; vm_compute; reflexivity|].
  split; [vm_compute; reflexivity|].
  split; [vm_compute; reflexivity|].
  split; [eexists; split; vm_compute; reflexivity|].
  vm_compute; reflexivity.
Qed.

End AppFacts.

(** * Further properties *)

(** ** utils.py and config.py *)

Module MoreUtilsFacts.
Import PyStr Utils UtilsFacts ConfigEnv Observations.

Lemma take_digits_all_digits s : all_digits (take_digits s) = true.
Proof.
  induction s as [|c s IH]; simpl; [reflexivity|].
  destruct (is_digit c) eqn:Hc; simpl; [now rewrite Hc | reflexivity].
Qed.

Lemma VAC_ID_RE_match_digits s g :
  VAC_ID_RE_match s = Some g -> g <> "" /\ all_digits g = true.
Proof.
  unfold VAC_ID_RE_match. destruct (strip_prefix "/vacancy/" s) as [rest|]; [|discriminate].
  pose proof (take_digits_all_digits rest) as Hd.
  destruct (take_digits rest) as [|c d]; [discriminate|].
  intros H. injection H as <-. split; [discriminate | exact Hd].
Qed.

Lemma VAC_ID_RE_search_digits s g :
  VAC_ID_RE_search s = Some g -> g <> "" /\ all_digits g = true.
Proof.
  induction s as [|c s IH]; cbn [VAC_ID_RE_search].
  - destruct (VAC_ID_RE_match "") eqn:Hm; [|discriminate].
    intros H. injection H as <-. now apply VAC_ID_RE_match_digits in Hm.
  - destruct (VAC_ID_RE_match (String c s)) eqn:Hm.
    + intros H. injection H as <-. now apply VAC_ID_RE_match_digits in Hm.
    + exact IH.
Qed.

Lemma all_digits_no_char c s :
  is_digit c = false -> all_digits s = true -> has_char c s = false.
Proof.
  intros Hc. induction s as [|a s IH]; simpl; [reflexivity|].
  intros H. apply andb_prop in H as [Ha Hs]. rewrite (IH Hs), orb_false_r.
  destruct (Ascii.eqb_spec a c) as [->|]; [congruence | reflexivity].
Qed.

Lemma split_pieces_no_sep sep s x :
  In x (split sep s) -> has_char sep x = false.
Proof.
  revert x. induction s as [|a s IH]; simpl; intros x Hx.
  - destruct Hx as [<-|[]]. reflexivity.
  - pose proof (split_not_nil sep s) as Hne.
    destruct (Ascii.eqb a sep) eqn:Ha.
    + destruct Hx as [<-|Hx]; [reflexivity | now apply IH].
    + destruct (split sep s) as [|h t]; [congruence|].
      destruct Hx as [<-|Hx].
      * simpl. rewrite Ha. apply IH. now left.
      * apply IH. now right.
Qed.

Lemma hd_split_In sep s : In (List.hd "" (split sep s)) (split sep s).
Proof.
  pose proof (split_not_nil sep s). destruct (split sep s); [congruence | now left].
Qed.

(** X1: The identifier never contains ["/"] or ["?"], whatever the URL: it is
    either a run of digits or a piece between separators. *)
Theorem extract_vacancy_id_no_separator (url : string) :
  has_char "/" (extract_vacancy_id url) = false
  /\ has_char "?" (extract_vacancy_id url) = false.
Proof.
  unfold extract_vacancy_id.
  destruct (VAC_ID_RE_search url) as [g|] eqn:Hs.
  - apply VAC_ID_RE_search_digits in Hs as [_ Hd].
    split; now apply all_digits_no_char.
  - split.
    + apply (has_char_split "/" "?" (List.last (split "/" url) "")).
      * apply (split_pieces_no_sep "/" url). apply last_In, split_not_nil.
      * apply hd_split_In.
    + apply (split_pieces_no_sep "?" (List.last (split "/" url) "")).
      apply hd_split_In.
Qed.

(** X2: When [/vacancy/<digits>] occurs in the URL, the identifier is a
    non-empty run of digits. *)
Theorem extract_vacancy_id_digits (url : string) :
  VAC_ID_RE_search url <> None ->
  extract_vacancy_id url <> "" /\ all_digits (extract_vacancy_id url) = true.
Proof.
  unfold extract_vacancy_id. intros H.
  destruct (VAC_ID_RE_search url) as [g|] eqn:Hs; [|congruence].
  now apply VAC_ID_RE_search_digits in Hs.
Qed.

Lemma extract_vacancy_id_digits_witness :
  extract_vacancy_id "https://hh.ru/vacancy/11223344?from=what&uid=whatever" <> ""
  /\ all_digits
       (extract_vacancy_id "https://hh.ru/vacancy/11223344?from=what&uid=whatever")
     = true.
Proof.
  apply (extract_vacancy_id_digits
           "https://hh.ru/vacancy/11223344?from=what&uid=whatever").
  discriminate.
Defined.

(** *** [str.strip] *)

Lemma lstrip_idempotent s : lstrip (lstrip s) = lstrip s.
Proof.
  induction s as [|c s IH]; simpl; [reflexivity|].
  destruct (is_space c) eqn:Hc; [exact IH|]. simpl. now rewrite Hc.
Qed.

Lemma rstrip_idempotent s : rstrip (rstrip s) = rstrip s.
Proof.
  induction s as [|c s IH]; simpl; [reflexivity|].
  destruct (rstrip s) as [|a r] eqn:Hr.
  - destruct (is_space c) eqn:Hc; simpl; [reflexivity | now rewrite Hc].
  - cbn [rstrip]. cbn [rstrip] in IH. now rewrite IH.
Qed.

Lemma rstrip_lstrip s : rstrip (lstrip s) = lstrip (rstrip s).
Proof.
  induction s as [|c s IH]; simpl; [reflexivity|].
  destruct (is_space c) eqn:Hc.
  - rewrite IH. destruct (rstrip s) as [|a r]; simpl; [reflexivity|].
    now rewrite Hc.
  - simpl. destruct (rstrip s) as [|b r]; rewrite ?Hc; simpl; rewrite ?Hc;
      reflexivity.
Qed.

Lemma strip_idempotent s : strip (strip s) = strip s.
Proof.
  unfold strip. now rewrite rstrip_lstrip, rstrip_idempotent, lstrip_idempotent.
Qed.

Lemma has_char_lstrip c s : has_char c s = false -> has_char c (lstrip s) = false.
Proof.
  induction s as [|a s IH]; simpl; [reflexivity|].
  intros H. apply orb_false_iff in H as [Ha Hs].
  destruct (is_space a); [now apply IH | simpl; now rewrite Ha, Hs].
Qed.

Lemma has_char_rstrip c s : has_char c s = false -> has_char c (rstrip s) = false.
Proof.
  induction s as [|a s IH]; simpl; [reflexivity|].
  intros H. apply orb_false_iff in H as [Ha Hs]. specialize (IH Hs).
  destruct (rstrip s) as [|b r].
  - destruct (is_space a); simpl; [reflexivity | now rewrite Ha].
  - simpl in *. now rewrite Ha, IH.
Qed.

(** X3: The region identifiers read from [HH_REGION_IDS] are never empty, carry
    no surrounding white space and no comma; blank items are dropped. *)
Theorem region_ids_clean (env : option string) (r : string) :
  In r (region_ids env) ->
  r <> "" /\ strip r = r /\ has_char "," r = false.
Proof.
  unfold region_ids. intros H.
  apply List.filter_In in H as [H Ht].
  apply List.in_map_iff in H as (piece & <- & Hpiece).
  split; [|split].
  - intros E. now rewrite E in Ht.
  - apply strip_idempotent.
  - unfold strip. apply has_char_lstrip, has_char_rstrip.
    exact (split_pieces_no_sep "," _ piece Hpiece).
Qed.

Lemma region_ids_clean_witness :
  "113" <> "" /\ strip "113" = "113" /\ has_char "," "113" = false.
Proof.
  apply (region_ids_clean (Some " 1 , ,113 ,")). vm_compute. tauto.
Defined.

End MoreUtilsFacts.

(** ** persistence.py and app.py *)

Module MoreAppFacts.
Import PyStr Browser Client Logic LogicFacts ClientFacts Site App AppFacts
  Observations MoreSite.
Local Open Scope prog_scope.

Section SeenRepo.
Context {Wd : World}.

(** X4: [mark_seen] never raises; it leaves the rows of the other identifiers
    alone, and a row that exists keeps its first stamp: the time to live
    counts from the first sighting. *)
Theorem mark_seen_keeps_rows (vac_id : string) (s : state) :
  exists s',
    mark_seen vac_id s = (Ok tt, s')
    /\ (forall other, other <> vac_id -> seen s' !! other = seen s !! other)
    /\ (forall ts, seen s !! vac_id = Some ts -> seen s' = seen s).
Proof.
  destruct (mark_seen_spec vac_id s) as (s' & evs & Hrun & _ & _ & Hrow).
  exists s'. split; [exact Hrun|].
  destruct (existsb is_commit evs).
  - destruct Hrow as (now & _ & Hs'). rewrite Hs'. split.
    + intros other Hne. destruct (seen s !! vac_id); [reflexivity|].
      now apply lookup_insert_ne.
    + intros ts Hts. now rewrite Hts.
  - rewrite Hrow. split; reflexivity.
Qed.

(** X5: Marking and asking: once the transaction of [mark_seen] is committed,
    [is_seen] answers [True] for that identifier. *)
Theorem mark_seen_then_is_seen (vac_id : string) (s s1 s2 : state)
    (evs : list event) (b : bool) :
  mark_seen vac_id s = (Ok tt, s1) ->
  log s1 = (evs ++ log s)%list ->
  existsb is_commit evs = true ->
  is_seen vac_id s1 = (Ok b, s2) ->
  b = true.
Proof.
  intros Hmark Hlog Hc Hseen.
  destruct (mark_seen_spec vac_id s) as (s' & evs' & Hrun & Hlog' & _ & Hrow).
  rewrite Hmark in Hrun. injection Hrun as <-.
  rewrite Hlog in Hlog'. apply app_inv_tail in Hlog' as <-.
  rewrite Hc in Hrow. destruct Hrow as (now & _ & Hs1).
  destruct (is_seen_spec _ _ _ _ Hseen) as [_ ->].
  rewrite Hs1. destruct (seen s !! vac_id) eqn:E.
  - now rewrite E.
  - now rewrite lookup_insert_eq.
Qed.

(** X6: [cleanup] never adds a row and never changes a stamp, whether it
    succeeds or fails. *)
Theorem cleanup_only_removes (ttl_days : Z) (s s' : state) (r : result unit)
    (vac_id : string) (ts : Z) :
  cleanup ttl_days s = (r, s') ->
  seen s' !! vac_id = Some ts ->
  seen s !! vac_id = Some ts.
Proof.
  unfold cleanup. destruct (ttl_days <=? 0)%Z.
  - intros H. now injection H as <- <-.
  - unfold with_conn, bind, perform, ask, get_seen, put_seen, ret.
    destruct (observe Wd UtcNow (world s)) as [now w0].
    cbv beta iota zeta; cbn [world log seen fst].
    run_calls Wd; intros H; injection H as <- <-; cbn [seen]; try tauto;
      intros Hrow; now apply map_lookup_filter_Some in Hrow as [Hrow _].
Qed.

(** X7: When [cleanup] returns normally with a positive time to live, the rows
    stamped before the cutoff are gone. *)
Theorem cleanup_expires (ttl_days : Z) (s s' : state) (vac_id : string)
    (ts : Z) :
  cleanup ttl_days s = (Ok tt, s') ->
  (0 < ttl_days)%Z ->
  seen s !! vac_id = Some ts ->
  (ts < fst (observe Wd UtcNow (world s)) - ttl_days * day)%Z ->
  seen s' !! vac_id = None.
Proof.
  unfold cleanup. intros H Httl. apply Z.leb_gt in Httl. rewrite Httl in H.
  revert H.
  unfold with_conn, bind, perform, ask, get_seen, put_seen, ret.
  destruct (observe Wd UtcNow (world s)) as [now w0].
  cbv beta iota zeta; cbn [world log seen fst].
  run_calls Wd; intros H; try discriminate; injection H as <-; cbn [seen].
  intros Hrow Hold. apply map_lookup_filter_None. right.
  intros ts' Hts'. rewrite Hrow in Hts'. injection Hts' as <-. cbn. lia.
Qed.

End SeenRepo.

Section Run.
Context {Wd : World}.
Variable cfg : Config.
Variable und : Undeclared.
Variable dry_run : bool.
Variable cover_text : string.

(** One turn of the loop: the counters it moves. *)
Lemma loop_body_counts vurl (l l' : locals) (f : flow) (s s' : state) :
  loop_body cfg und dry_run cover_text vurl l s = (Ok (f, l'), s') ->
  (l_applies_done l <= l_applies_done l'
   <= Z.max (l_applies_done l) (max_applies cfg))%Z
  /\ (opened (l_stats l') - opened (l_stats l)
      = settled (l_stats l') - settled (l_stats l))%Z
  /\ (l_applies_done l' - l_applies_done l
      = applies_done (l_stats l') - applies_done (l_stats l))%Z
  /\ found_links (l_stats l') = found_links (l_stats l).
Proof.
  unfold loop_body, bind, settled.
  destruct (ask StopFlag s) as [[stop|e] s1]; [|discriminate].
  destruct stop; [intros H; injection H as <- <- <-; lia|].
  destruct (max_applies cfg <=? l_applies_done l)%Z eqn:Hcap;
    [intros H; injection H as <- <- <-; lia|].
  apply Z.leb_gt in Hcap.
  destruct (is_seen _ s1) as [[was|e] s2]; [|discriminate].
  destruct was; [intros H; injection H as <- <- <-; cbn; lia|].
  match goal with
  | |- context [match ?m s2 with _ => _ end] =>
      destruct (m s2) as [[[result title]|e] s3]; [|discriminate]
  end.
  destruct (mark_seen _ s3) as [[[]|e] s4]; [|discriminate].
  unfold try_except, human_pause, perform, ask, ret.
  destruct result; run_calls Wd; intros H;
    first [discriminate H | injection H as <- <- <-; cbn; lia].
Qed.

(** X8: The loop over the links never takes the count of applications past
    [max_applies]: it ends between where it started and the limit. *)
Theorem for_links_respects_cap (links : list string) (l l' : locals)
    (s s' : state) :
  for_links cfg und dry_run cover_text links l s = (Ok l', s') ->
  (l_applies_done l <= l_applies_done l'
   <= Z.max (l_applies_done l) (max_applies cfg))%Z.
Proof.
  revert l s. induction links as [|vurl rest IH]; intros l s; simpl.
  - intros H. injection H as <- <-. lia.
  - unfold bind.
    destruct (loop_body cfg und dry_run cover_text vurl l s)
      as [[[f l1]|e] s1] eqn:E; [|discriminate].
    apply loop_body_counts in E as (Hcap & _).
    destruct f.
    + intros H. injection H as <- <-. exact Hcap.
    + intros H. apply IH in H. lia.
Qed.

(** X9: The counters add up: every listing the loop counts as opened is counted
    once more, as applied to, as already applied to or as failed; the count
    of applications moves with [stats.applies_done]; and the loop leaves
    [stats.found_links] alone. *)
Theorem for_links_accounting (links : list string) (l l' : locals)
    (s s' : state) :
  for_links cfg und dry_run cover_text links l s = (Ok l', s') ->
  (opened (l_stats l') - opened (l_stats l)
   = settled (l_stats l') - settled (l_stats l))%Z
  /\ (l_applies_done l' - l_applies_done l
      = applies_done (l_stats l') - applies_done (l_stats l))%Z
  /\ found_links (l_stats l') = found_links (l_stats l).
Proof.
  revert l s. induction links as [|vurl rest IH]; intros l s; simpl.
  - intros H. injection H as <- <-. lia.
  - unfold bind.
    destruct (loop_body cfg und dry_run cover_text vurl l s)
      as [[[f l1]|e] s1] eqn:E; [|discriminate].
    apply loop_body_counts in E as (_ & Ho & Ha & Hf).
    destruct f.
    + intros H. injection H as <- <-. auto.
    + intros H. apply IH in H as (Ho' & Ha' & Hf'). lia.
Qed.

End Run.

Section DryRun.
Context {Wd : World}.
Variable cfg : Config.
Variable und : Undeclared.
Variable cover_text : string.

Lemma only_get_seen P : only P get_seen.
Proof. intros s r s' H. injection H as <- <-. now exists []. Qed.

Lemma only_put_seen P t : only P (put_seen t).
Proof. intros s r s' H. injection H as <- <-. now exists []. Qed.

Lemma is_seen_footprint vac_id :
  only (in_families dry_run_families) (is_seen vac_id).
Proof.
  unfold is_seen, with_conn.
  repeat first [apply only_get_seen | only_step].
Qed.

Lemma mark_seen_footprint vac_id :
  only (in_families dry_run_families) (mark_seen vac_id).
Proof.
  unfold mark_seen, with_conn.
  repeat first [apply only_get_seen | apply only_put_seen | only_step].
Qed.

Lemma loop_body_dry_run vurl l :
  only (in_families dry_run_families) (loop_body cfg und true cover_text vurl l).
Proof.
  unfold loop_body, human_pause.
  repeat first [apply is_seen_footprint | apply mark_seen_footprint | only_step].
Qed.

(** X10: With [--dry-run] the loop over the links makes no browser call at all:
    it only reads the stop flag, the table and the clock, writes the table
    and the report, and pauses. *)
Theorem dry_run_leaves_browser_alone (links : list string) (l : locals) :
  only (in_families dry_run_families) (for_links cfg und true cover_text links l).
Proof.
  revert l. induction links as [|vurl rest IH]; intros l; simpl.
  - apply only_ret.
  - apply only_bind; [apply loop_body_dry_run|].
    intros [[] l1]; [apply only_ret | apply IH].
Qed.

End DryRun.

Lemma for_links_respects_cap_witness :
  let run := for_links two_applies_cfg as_shipped true cover four_links
               {| l_applies_done := 0; l_stats := no_stats |}
               (start good_site ∅) in
  let l' := match fst run with
            | Ok l => l
            | Raise _ => {| l_applies_done := 0; l_stats := no_stats |}
            end in
  (0 <= l_applies_done l' <= 2)%Z.
Proof.
  intros run l'.
  apply (for_links_respects_cap (Wd := site_world good_site) two_applies_cfg
           as_shipped true cover four_links
           {| l_applies_done := 0; l_stats := no_stats |} l'
           (start good_site ∅) (snd run)).
  vm_compute; reflexivity.
Defined.

Lemma for_links_accounting_witness :
  let run := for_links default_cfg completed false cover four_links
               {| l_applies_done := 0; l_stats := no_stats |}
               (start no_resume_site {[ "103" := 5%Z ]}) in
  let l' := match fst run with
            | Ok l => l
            | Raise _ => {| l_applies_done := 0; l_stats := no_stats |}
            end in
  (opened (l_stats l') - 0 = settled (l_stats l') - 0)%Z
  /\ (l_applies_done l' - 0 = applies_done (l_stats l') - 0)%Z
  /\ found_links (l_stats l') = 0%Z.
Proof.
  intros run l'.
  apply (for_links_accounting (Wd := site_world no_resume_site) default_cfg
           completed false cover four_links
           {| l_applies_done := 0; l_stats := no_stats |} l'
           (start no_resume_site {[ "103" := 5%Z ]}) (snd run)).
  vm_compute; reflexivity.
Defined.

Lemma mark_seen_then_is_seen_witness :
  let s := start good_site ∅ in
  let s1 := snd (mark_seen "12345678" s) in
  fst (is_seen "12345678" s1) = Ok true.
Proof.
  intros s s1.
  destruct (is_seen "12345678" s1) as [[b|e] s2] eqn:E; [|discriminate E].
  cbn [fst]. f_equal.
  exact (mark_seen_then_is_seen (Wd := site_world good_site) "12345678"
           s s1 s2 (firstn 5 (log s1)) b eq_refl eq_refl eq_refl E).
Defined.

Lemma cleanup_only_removes_witness :
  let s := start_at good_site 2000000000000 {[ "old" := 5%Z; "new" := 1999999999999%Z ]} in
  seen s !! "new" = Some 1999999999999%Z.
Proof.
  intros s.
  apply (cleanup_only_removes (Wd := site_world good_site) 14 s
           (snd (cleanup 14 s)) (fst (cleanup 14 s)) "new" 1999999999999);
    [apply surjective_pairing | vm_compute; reflexivity].
Defined.

Lemma cleanup_expires_witness :
  let s := start_at good_site 2000000000000 {[ "old" := 5%Z; "new" := 1999999999999%Z ]} in
  seen (snd (cleanup 14 s)) !! "old" = None.
Proof.
  intros s.
  apply (cleanup_expires (Wd := site_world good_site) 14 s (snd (cleanup 14 s))
           "old" 5);
    [vm_compute; reflexivity | reflexivity | vm_compute; reflexivity
    | vm_compute; reflexivity].
Defined.

End MoreAppFacts.

(** ** client.py: the helpers of the listing workflow *)

Module MoreClientFacts.
Import PyStr Browser Client Logic LogicFacts ClientFacts Site Observations
  MoreSite.
Local Open Scope prog_scope.

Section Loops.
Context {Wd : World}.

(** A [for] loop: [N] holds of the events of the turns that went on, [Q] of
    the events up to a [return] or an exception. *)
Lemma spec_for_each {A R} (N : list event -> Prop)
    (Q : list event -> result (option R) -> Prop)
    (xs : list A) (body : A -> M (option R)) :
  N [] ->
  (forall a b, N a -> N b -> N (a ++ b)%list) ->
  (forall a b r, Q a r -> N b -> Q (a ++ b)%list r) ->
  (forall x, In x xs ->
     spec (body x)
          (fun evs r => match r with Ok None => N evs | _ => Q evs r end)) ->
  spec (for_each xs body)
       (fun evs r => match r with Ok None => N evs | _ => Q evs r end).
Proof.
  intros Hnil HN HQ. induction xs as [|x xs IH]; intros H; simpl.
  - now apply spec_ret.
  - apply spec_bind. eapply spec_conseq; [apply H; now left|].
    intros evs1 [[v|]|e] H1.
    + now apply spec_ret.
    + eapply spec_conseq; [apply IH; intros y Hy; apply H; now right|].
      intros evs2 [[v|]|e] H2; cbv beta; auto.
    + exact H1.
Qed.

Lemma count_app P a b : count P (a ++ b) = count P a + count P b.
Proof. unfold count. now rewrite List.filter_app, length_app. Qed.

End Loops.

Section Helpers.
Context {Wd : World}.

Lemma qualified_older btn a b : qualified btn a -> qualified btn (a ++ b).
Proof.
  intros (d & x & Hev & Hd & Hx). exists d, x. split; [|auto].
  destruct a as [|e1 [|e2 [|e3 a]]]; try discriminate. exact Hev.
Qed.

(** X11: [find_enabled_submit] never raises, and the button it returns is the
    first match of one of the four submit selectors, on which its last three
    calls were: a wait that found it visible, a read of [disabled] that gave
    a false value, and a read of [aria-disabled] that gave nothing or the
    string false. *)
Theorem find_enabled_submit_sound :
  spec find_enabled_submit
       (fun evs r =>
          match r with
          | Ok (Some btn) =>
              (exists sel, In sel submit_candidates /\ btn = First (Loc sel))
              /\ qualified btn evs
          | Ok None => True
          | Raise _ => False
          end).
Proof.
  unfold find_enabled_submit.
  eapply spec_conseq.
  - apply (spec_for_each
             (fun _ => True)
             (fun evs r =>
                match r with
                | Ok (Some btn) =>
                    (exists sel, In sel submit_candidates
                                 /\ btn = First (Loc sel))
                    /\ qualified btn evs
                | _ => False
                end)); [exact I | auto | |].
    + intros a b [[btn|]|e] Ha _; try exact Ha.
      destruct Ha as [Hsel Hq]. split; [exact Hsel|].
      now apply qualified_older.
    + intros sel Hsel. unfold try_submit_candidate, is_visible.
      spec_auto; try exact I.
      split; [now exists sel|].
      match goal with
      | H : (_ && _)%bool = true |- _ => apply andb_prop in H as [Hd Ha]
      end.
      apply negb_true_iff in Hd.
      repeat match goal with u : unit |- _ => destruct u end.
      do 2 eexists. split; [reflexivity|]. now split.
  - intros evs [[btn|]|e] H; exact H.
Qed.

(** X12: [select_specific_resume] returns [True] exactly when it activated an
    entry: one [check] or [click] returned, and it was the last thing that
    happened; on any other outcome no activation went through. *)
Theorem select_specific_resume_activates_once (mask : string) :
  spec (select_specific_resume mask)
       (fun evs r =>
          count activated evs = match r with Ok true => 1 | _ => 0 end).
Proof.
  set (N := fun evs => count activated evs = 0).
  set (Q := fun evs (r : result (option bool)) =>
              match r with
              | Ok (Some b) => b = true /\ count activated evs = 1
              | _ => count activated evs = 0
              end).
  assert (HN : forall a b, N a -> N b -> N (a ++ b)%list).
  { unfold N. intros a b Ha Hb. rewrite count_app. lia. }
  assert (HQ : forall a b r, Q a r -> N b -> Q (a ++ b)%list r).
  { unfold N, Q. intros a b [[v|]|e] Ha Hb; rewrite count_app; try lia.
    destruct Ha. split; [assumption | lia]. }
  unfold select_specific_resume.
  apply spec_bind. eapply spec_conseq.
  - apply (spec_for_each N Q); [reflexivity | exact HN | exact HQ |].
    intros sel _. unfold check_radio_or_click, is_visible.
    spec_auto; unfold N, Q; cbn; auto.
  - intros evs1 [[b|]|e] H1; unfold N, Q in H1.
    + destruct H1 as [-> H1]. apply spec_ret. exact H1.
    + apply spec_bind. eapply spec_conseq.
      * apply (spec_for_each N Q); [reflexivity | exact HN | exact HQ |].
        intros sel _. cbv beta zeta.
        apply spec_bind. apply spec_perform. intros [c|e]; [|reflexivity].
        eapply spec_conseq.
        -- apply (spec_for_each N Q); [reflexivity | exact HN | exact HQ |].
           intros i _. unfold check_radio_or_click, is_visible.
           spec_auto; unfold N, Q; cbn; auto.
        -- intros evs2 r2 H2. cbv beta.
           destruct r2 as [[v|]|e]; unfold N, Q in *; rewrite count_app; cbn;
             try lia.
           destruct H2. split; [assumption | lia].
      * intros evs2 [[b|]|e] H2; unfold N, Q in H2; cbv beta.
        -- destruct H2 as [-> H2]. apply spec_ret. cbn [app].
           rewrite count_app. lia.
        -- apply spec_ret. cbn [app]. rewrite count_app. lia.
        -- rewrite count_app. lia.
    + exact H1.
Qed.

(** X13: [select_any_resume_if_needed] likewise: [True] exactly when one
    activation went through. *)
Theorem select_any_resume_activates_once :
  spec select_any_resume_if_needed
       (fun evs r =>
          count activated evs = match r with Ok true => 1 | _ => 0 end).
Proof.
  set (N := fun evs => count activated evs = 0).
  set (Q := fun evs (r : result (option bool)) =>
              match r with
              | Ok (Some b) => b = true /\ count activated evs = 1
              | _ => count activated evs = 0
              end).
  unfold select_any_resume_if_needed.
  apply spec_bind. eapply spec_conseq.
  - apply (spec_for_each N Q); [reflexivity | | |].
    + unfold N. intros a b Ha Hb. rewrite count_app. lia.
    + unfold N, Q. intros a b [[v|]|e] Ha Hb; rewrite count_app; try lia.
      destruct Ha. split; [assumption | lia].
    + intros sel _. unfold is_visible.
      spec_auto; unfold N, Q; cbn; auto.
  - intros evs1 [[b|]|e] H1; unfold N, Q in H1.
    + destruct H1 as [-> H1]. apply spec_ret. exact H1.
    + apply spec_ret. exact H1.
    + exact H1.
Qed.

End Helpers.

End MoreClientFacts.

(** ** client.py: what the helpers return, and the page of a listing *)

Module MoreWorkflowFacts.
Import PyStr Browser Client Logic LogicFacts ClientFacts WorkflowFacts Site
  Observations MoreSite MoreUtilsFacts MoreClientFacts Returns ClosedContext.
Local Open Scope prog_scope.

Ltac units := repeat match goal with u : unit |- _ => destruct u end.

Section Helpers.
Context {Wd : World}.

(** X14: [_get_vacancy_description] never raises; it returns the empty string or
    a text of more than fifty characters without blanks at its ends. *)
Theorem get_vacancy_description_result :
  spec _get_vacancy_description
       (fun _ r =>
          exists t, r = Ok t
                    /\ (t = "" \/ (50 < String.length t /\ strip t = t))).
Proof.
  unfold _get_vacancy_description. apply spec_bind. eapply spec_conseq.
  - apply (spec_for_each
             (fun _ => True)
             (fun _ r =>
                match r with
                | Ok (Some t) => 50 < String.length t /\ strip t = t
                | _ => False
                end)); [exact I | auto | |].
    + intros a b [[t|]|e] Ha _; exact Ha.
    + intros sel _. unfold is_visible. spec_auto; try exact I.
      all: match goal with
           | H : (_ && _)%bool = true |- _ => apply andb_prop in H as [_ Hlen]
           end.
      all: apply Nat.ltb_lt in Hlen; split;
        [exact Hlen | apply strip_idempotent].
  - intros evs1 [[t|]|e] H1; [| |destruct H1].
    + apply spec_ret. exists t. auto.
    + apply spec_ret. exists "". auto.
Qed.

(** X15: Reading the title never raises, and the title has no blanks at its
    ends. *)
Theorem read_title_result :
  spec read_title (fun _ r => exists t, r = Ok t /\ strip t = t).
Proof.
  unfold read_title. apply spec_bind. eapply spec_conseq.
  - apply (spec_for_each
             (fun _ => True)
             (fun _ r =>
                match r with
                | Ok (Some t) => strip t = t
                | _ => False
                end)); [exact I | auto | |].
    + intros a b [[t|]|e] Ha _; exact Ha.
    + intros sel _. spec_auto; try exact I; apply strip_idempotent.
  - intros evs1 [[t|]|e] H1; [| |destruct H1].
    + apply spec_ret. exists t. auto.
    + spec_auto; eexists; (split; [reflexivity|]);
        first [apply strip_idempotent | reflexivity].
Qed.

(** X16: [get_apply_button] never raises.  What it returns is an apply entry
    point whose wait has just succeeded; it returns [None] after six waits,
    none of which succeeded. *)
Theorem get_apply_button_result :
  spec get_apply_button
       (fun evs r =>
          match r with
          | Ok (Some b) =>
              locator_family b = FApply
              /\ hd_error evs = Some (Called (WaitForVisible b 900) (Ok tt))
          | Ok None =>
              length evs = 6 /\ existsb entry_point_seen evs = false
          | Raise _ => False
          end).
Proof.
  unfold get_apply_button, is_visible. cbn [for_each].
  spec_auto; units; split; reflexivity.
Qed.

(** X17: [already_applied] never raises, and all it does is wait for elements to
    show, at most ten times. *)
Theorem already_applied_only_waits :
  spec already_applied
       (fun evs r =>
          (exists b, r = Ok b)
          /\ forallb is_wait evs = true
          /\ length evs <= 10).
Proof.
  unfold already_applied, ALREADY_APPLIED_TEXT, get_apply_button, is_visible.
  cbn [for_each].
  spec_auto; (split; [eexists; reflexivity|]);
    (split; [reflexivity | cbn; lia]).
Qed.

Lemma at_most_for_each_le {A R} k n P (xs : list A)
    (body : A -> M (option R)) :
  length xs <= k ->
  (forall x, at_most n P (body x)) ->
  at_most (k * n) P (for_each xs body).
Proof.
  intros Hk H. eapply at_most_le; [|apply at_most_for_each, H]. nia.
Qed.

Lemma length_range n : length (range n) = n.
Proof. apply length_seq. Qed.

Lemma check_consents_checks :
  at_most 18 is_check check_consents_if_needed.
Proof.
  unfold check_consents_if_needed.
  apply (at_most_try_except 18 0); [|intros e; apply at_most_ret].
  apply (at_most_bind 18 0); [|intros r; apply at_most_ret].
  apply (at_most_for_each 6 is_check [_; _; _]). intros sel. cbv zeta.
  apply (at_most_bind 0 6);
    [apply at_most_perform_none; intros ?; reflexivity|].
  intros c. apply (at_most_for_each_le 6 1).
  - rewrite length_range. lia.
  - intros i. unfold is_visible. at_most_auto.
Qed.

(** X18: [check_consents_if_needed] never raises, and checks at most eighteen
    boxes: six for each of the three selectors. *)
Theorem check_consents_bounded :
  spec check_consents_if_needed
       (fun evs r => r = Ok tt /\ count is_check evs <= 18).
Proof.
  intros s r s' Hrun.
  destruct (check_consents_checks _ _ _ Hrun) as (evs & Hlog & Hn).
  exists evs. split; [exact Hlog|]. split; [|exact Hn].
  revert Hrun. unfold check_consents_if_needed, try_except, bind, ret.
  match goal with
  | |- context [for_each ?xs ?b s] =>
      destruct (for_each xs b s) as [[?|?] ?]
  end; intros H; now injection H as <- _.
Qed.

End Helpers.

Section Page.
Context {Wd : World}.
Variable cfg : Config.
Variable und : Undeclared.

Lemma guarded_run {A} page title url (m : M A) k (s : state) :
  guarded page title url m k s
  = match m s with
    | (Ok a, s') => k a s'
    | (Raise e, s') => except_clauses page title url e s'
    end.
Proof. reflexivity. Qed.

Lemma only_guarded {A} P page title url (m : M A) k :
  only P m -> (forall a, only P (k a)) ->
  (forall e, only P (except_clauses page title url e)) ->
  only P (guarded page title url m k).
Proof.
  intros Hm Hk He s r s' Hrun. rewrite guarded_run in Hrun.
  destruct (m s) as [[a|e] s1] eqn:E;
    destruct (Hm _ _ _ E) as (evs1 & Hlog1 & H1).
  - destruct (Hk _ _ _ _ Hrun) as (evs2 & Hlog2 & H2).
    exists (evs2 ++ evs1)%list. split.
    + now rewrite Hlog2, Hlog1, app_assoc.
    + now rewrite forallb_app, H1, H2.
  - destruct (He _ _ _ _ Hrun) as (evs2 & Hlog2 & H2).
    exists (evs2 ++ evs1)%list. split.
    + now rewrite Hlog2, Hlog1, app_assoc.
    + now rewrite forallb_app, H1, H2.
Qed.

Lemma except_clauses_within page title url e :
  only within_page (except_clauses page title url e).
Proof.
  unfold except_clauses, load_global, return_error, make_shot. only_auto.
Qed.

Lemma process_listing_within title text :
  only within_page (process_listing cfg und title text).
Proof.
  unfold process_listing, add_cover_letter_and_submit,
    select_resume_and_submit, fill_cover_letter_with_verification,
    fill_attempt, try_textarea, write_and_read_back, reveal_cover_letter,
    select_specific_resume, check_radio_or_click,
    select_any_resume_if_needed, check_consents_if_needed, submit_cycle,
    find_enabled_submit, try_submit_candidate, click_and_verify,
    already_applied, get_apply_button, _get_vacancy_description,
    cfg_ai_field, Selectors_FOREIGN_COUNTRY_MODAL_BUTTON, make_shot,
    is_visible, human_pause, human_pause_between.
  only_auto.
Qed.

(** Without a page the [except] clauses make no call. *)
Lemma except_clauses_no_page title url e (s s' : state) r :
  except_clauses None title url e s = (r, s') -> s' = s.
Proof.
  unfold except_clauses, load_global, return_error, make_shot, try_except,
    bind, raise, ret. cbn.
  destruct e, title; intros H; now injection H as _ <-.
Qed.

(** X19: When [context.new_page()] raises, [apply_to_vacancy] does nothing more
    and raises too, whatever the exception: the handlers return [title],
    which is not bound yet, and the second clause names a class client.py
    does not import. *)
Theorem new_page_failure_escapes (url text : string) (s s1 : state) (e : exn) :
  perform NewPage s = (Raise e, s1) ->
  apply_to_vacancy cfg und url text s = (Raise (escapes_as e), s1).
Proof.
  intros H. unfold apply_to_vacancy. rewrite guarded_run, H.
  unfold except_clauses, load_global, return_error, make_shot, try_except,
    bind, raise, ret. cbn.
  destruct e; reflexivity.
Qed.

(** X20: A navigation that times out is reported as [ERROR] with an empty title,
    after a screenshot tagged [vacancy_timeout] and the closing of the
    page. *)
Theorem navigation_timeout_reported (url text : string) (s s1 s2 s3 : state) :
  perform NewPage s = (Ok tt, s1) ->
  perform OnConsole s1 = (Ok tt, s2) ->
  (perform (SetDefaultTimeout 30000) ;;
   perform (Goto url 30000) ;;
   human_pause) s2 = (Raise PWTimeoutError, s3) ->
  exists s' rs rc,
    apply_to_vacancy cfg und url text s = (Ok (ERROR, ""), s')
    /\ log s' = Called Close rc :: Called (Screenshot "vacancy_timeout") rs
                  :: log s3.
Proof.
  intros H1 H2 H3. unfold apply_to_vacancy.
  rewrite guarded_run, H1. unfold try_finally.
  rewrite guarded_run, H2, guarded_run, H3.
  unfold except_clauses, load_global, return_error, make_shot, close_page,
    try_except, bind, perform, ret. cbn.
  destruct (handle Wd (Screenshot "vacancy_timeout") (world s3))
    as [[[]|es] w1]; cbn;
    match goal with
    | |- context [handle Wd Close ?w] =>
        destruct (handle Wd Close w) as [[[]|ec] w2]
    end; cbn; do 3 eexists; split; reflexivity.
Qed.

Lemma perform_log {T} (o : op T) (s s' : state) r :
  perform o s = (r, s') -> log s' = Called o r :: log s.
Proof.
  unfold perform. destruct (handle Wd o (world s)).
  intros H. now injection H as <- <-.
Qed.

(** X21: Every page [apply_to_vacancy] opens it closes: either [new_page] raised,
    nothing else happened and the call raises; or the page was opened first
    and closed last, and in between no page was opened or closed. *)
Theorem apply_to_vacancy_closes_page (url text : string) :
  spec (apply_to_vacancy cfg und url text)
       (fun evs r =>
          (exists e, evs = [Called NewPage (Raise e)]
                     /\ r = Raise (escapes_as e))
          \/ (exists rc body,
                evs = (Called Close rc :: body ++ [Called NewPage (Ok tt)])%list
                /\ forallb within_page body = true)).
Proof.
  intros s r s' Hrun. unfold apply_to_vacancy in Hrun.
  rewrite guarded_run in Hrun.
  destruct (perform NewPage s) as [[[]|e] s1] eqn:Hnew;
    pose proof (perform_log _ _ _ _ Hnew) as Hlog.
  - unfold try_finally in Hrun.
    match type of Hrun with
    | context [guarded ?p ?t ?u ?m ?k s1] =>
        destruct (guarded p t u m k s1) as [r1 s2] eqn:Hbody;
        assert (Hw : only within_page (guarded p t u m k))
    end.
    { apply only_guarded;
        [apply only_perform; intros ?; reflexivity | intros _
        | apply except_clauses_within].
      apply only_guarded;
        [unfold human_pause; only_auto | intros _
        | apply except_clauses_within].
      apply only_bind; [unfold read_title; only_auto|]. intros title.
      apply only_guarded;
        [apply process_listing_within | intros a; apply only_ret
        | apply except_clauses_within]. }
    injection Hrun as <- <-.
    destruct (Hw _ _ _ Hbody) as (evs1 & Hlog1 & Hin).
    destruct (close_page_log s2) as (rc & Hclose).
    exists (Called Close rc :: evs1 ++ [Called NewPage (Ok tt)])%list.
    split.
    + change (log (snd (close_page (Some ThePage) s2))
              = ((Called Close rc :: evs1 ++ [Called NewPage (Ok tt)])
                   ++ log s)%list).
      rewrite Hclose, Hlog1, Hlog, <- app_comm_cons, <- app_assoc.
      reflexivity.
    + right. eauto.
  - assert (Hr := Hrun).
    apply except_clauses_no_page in Hrun as ->.
    exists [Called NewPage (Raise e)]. split; [exact Hlog|]. left.
    exists e. split; [reflexivity|].
    revert Hr.
    unfold except_clauses, load_global, return_error, make_shot, try_except,
      bind, raise, ret. cbn.
    destruct e; intros H; now injection H as <-.
Qed.

End Page.

Lemma new_page_failure_escapes_witness :
  fst (apply_to_vacancy default_cfg completed "https://hh.ru/vacancy/12345678"
         cover (closed_start PWTimeoutError))
  = Raise (UnboundLocalError "title").
Proof.
  rewrite (new_page_failure_escapes (Wd := closed_world PWTimeoutError)
             default_cfg completed "https://hh.ru/vacancy/12345678" cover
             (closed_start PWTimeoutError)
             (snd (perform NewPage (closed_start PWTimeoutError)))
             PWTimeoutError);
    reflexivity.
Defined.

Lemma navigation_timeout_reported_witness :
  let s := start timeout_readonly_site ∅ in
  let s1 := snd (perform NewPage s) in
  let s2 := snd (perform OnConsole s1) in
  let s3 := snd ((perform (SetDefaultTimeout 30000) ;;
                  perform (Goto "https://hh.ru/vacancy/12345678" 30000) ;;
                  human_pause) s2) in
  exists s' rs rc,
    apply_to_vacancy default_cfg completed "https://hh.ru/vacancy/12345678"
      cover s
    = (Ok (ERROR, ""), s')
    /\ log s' = Called Close rc :: Called (Screenshot "vacancy_timeout") rs
                  :: log s3.
Proof.
  intros s s1 s2 s3.
  apply (navigation_timeout_reported (Wd := site_world timeout_readonly_site)
           default_cfg completed "https://hh.ru/vacancy/12345678" cover
           s s1 s2 s3); reflexivity.
Defined.

End MoreWorkflowFacts.

(** ** client.py: what a reported success rests on *)

Module SubmissionFacts.
Import PyStr Browser Client Logic LogicFacts ClientFacts WorkflowFacts Site
  Observations MoreSite MoreClientFacts Returns MoreWorkflowFacts.
Local Open Scope prog_scope.

Section Rules.
Context {Wd : World}.

Lemma logs_of_only {A} P (m : M A) : only P m -> logs m.
Proof. apply only_weaken. reflexivity. Qed.

Lemma oa_none {A} P (m : M A) : logs m -> only_after (fun _ => false) P m.
Proof.
  intros Hm. eapply spec_conseq; [exact Hm|].
  intros evs [a|e] _; [discriminate | exact I].
Qed.

Lemma oa_ret_no {A} (good : A -> bool) P a :
  good a = false -> only_after good P (ret a).
Proof. intros H. apply spec_ret. rewrite H. discriminate. Qed.

Lemma oa_good {A} (good good' : A -> bool) P (m : M A) :
  (forall a, good' a = true -> good a = true) ->
  only_after good P m -> only_after good' P m.
Proof.
  intros Hg Hm. eapply spec_conseq; [exact Hm|].
  intros evs [a|e] H; [|exact I]. auto.
Qed.

Lemma oa_bind {A B} (g1 : A -> bool) (good : B -> bool) P
    (m : M A) (k : A -> M B) :
  only_after g1 P m ->
  (forall a, if g1 a then logs (k a) else only_after good P (k a)) ->
  only_after good P (bind m k).
Proof.
  intros Hm Hk. apply spec_bind. eapply spec_conseq; [exact Hm|].
  intros evs1 [a|e] H1; [|exact I].
  specialize (Hk a). destruct (g1 a).
  - eapply spec_conseq; [exact Hk|]. intros evs2 [b|e] _; [|exact I].
    intros _. rewrite existsb_app, (H1 eq_refl). apply orb_true_r.
  - eapply spec_conseq; [exact Hk|]. intros evs2 [b|e] H2; [|exact I].
    intros Hg. now rewrite existsb_app, (H2 Hg).
Qed.

(** A step that decides nothing. *)
Lemma oa_then {A B} (good : B -> bool) P (m : M A) (k : A -> M B) :
  logs m -> (forall a, only_after good P (k a)) ->
  only_after good P (bind m k).
Proof.
  intros Hm Hk. apply (oa_bind (fun _ => false)); [now apply oa_none|].
  exact Hk.
Qed.

Lemma oa_try_except {A} (good : A -> bool) P (m : M A) h :
  only_after good P m -> (forall e, only_after good P (h e)) ->
  only_after good P (try_except m h).
Proof.
  intros Hm Hh. apply spec_try_except. eapply spec_conseq; [exact Hm|].
  intros evs1 [a|e] H1; [exact H1|].
  eapply spec_conseq; [apply Hh|]. intros evs2 [b|e'] H2; [|exact I].
  intros Hg. now rewrite existsb_app, (H2 Hg).
Qed.

Lemma oa_try_finally {A} (good : A -> bool) P (m : M A) f :
  only_after good P m -> logs f -> only_after good P (try_finally m f).
Proof.
  intros Hm Hf s r s' Hrun. unfold try_finally in Hrun.
  destruct (m s) as [r1 s1] eqn:Hm1. injection Hrun as <- <-.
  destruct (Hm _ _ _ Hm1) as (evs1 & Hlog1 & H1).
  destruct (f s1) as [r2 s2] eqn:Hf1.
  destruct (Hf _ _ _ Hf1) as (evs2 & Hlog2 & _).
  exists (evs2 ++ evs1)%list. split.
  - cbn [snd]. now rewrite Hlog2, Hlog1, app_assoc.
  - destruct r1 as [a|e]; [|exact I]. intros Hg.
    rewrite existsb_app, (H1 Hg). apply orb_true_r.
Qed.

Lemma oa_for_each {A R} (good : option R -> bool) P (xs : list A) body :
  good None = false ->
  (forall x, In x xs -> only_after good P (body x)) ->
  only_after good P (for_each xs body).
Proof.
  intros Hnone H. unfold only_after. eapply spec_conseq.
  - apply (spec_for_each
             (fun _ => True)
             (fun evs r =>
                match r with
                | Ok a => good a = true -> existsb P evs = true
                | Raise _ => True
                end)); [exact I | auto | |].
    + intros a b [v|e] Ha _; [|exact I]. intros Hg.
      now rewrite existsb_app, (Ha Hg).
    + intros x Hx. eapply spec_conseq; [apply H, Hx|].
      intros evs [[v|]|e] Hev; auto.
  - intros evs [[v|]|e] Hev; auto. intros Hg. congruence.
Qed.

(** The events that came before do not matter. *)
Lemma oa_older {A} (good : A -> bool) P (m : M A) evs1 :
  only_after good P m ->
  spec m (fun evs2 r =>
            match r with
            | Ok a => good a = true -> existsb P (evs2 ++ evs1) = true
            | Raise _ => True
            end).
Proof.
  intros Hm. eapply spec_conseq; [exact Hm|].
  intros evs2 [a|e] H; [|exact I]. intros Hg.
  now rewrite existsb_app, (H Hg).
Qed.

End Rules.

(** A run that only adds events to the log, whatever it calls. *)
Ltac logs_auto :=
  unfold logs, process_listing, add_cover_letter_and_submit,
    select_resume_and_submit, fill_cover_letter_with_verification,
    fill_attempt, try_textarea, write_and_read_back, reveal_cover_letter,
    select_specific_resume, check_radio_or_click,
    select_any_resume_if_needed, check_consents_if_needed, submit_cycle,
    find_enabled_submit, try_submit_candidate, click_and_verify,
    already_applied, get_apply_button, _get_vacancy_description,
    cfg_ai_field, Selectors_FOREIGN_COUNTRY_MODAL_BUTTON, read_title,
    close_page, except_clauses, load_global, return_error, make_shot,
    is_visible, human_pause, human_pause_between;
  only_auto.

Section Success.
Context {Wd : World}.
Variable cfg : Config.
Variable und : Undeclared.

Lemma oa_guarded {A} (g1 : A -> bool) good P page title url (m : M A) k :
  only_after g1 P m ->
  (forall a, if g1 a then logs (k a) else only_after good P (k a)) ->
  (forall e, only_after good P (except_clauses page title url e)) ->
  only_after good P (guarded page title url m k).
Proof.
  intros Hm Hk He s r s' Hrun. rewrite guarded_run in Hrun.
  destruct (m s) as [[a|e] s1] eqn:E;
    destruct (Hm _ _ _ E) as (evs1 & Hlog1 & H1).
  - specialize (Hk a). destruct (g1 a).
    + destruct (Hk _ _ _ Hrun) as (evs2 & Hlog2 & _).
      exists (evs2 ++ evs1)%list. split.
      * now rewrite Hlog2, Hlog1, app_assoc.
      * destruct r; [|exact I]. intros _.
        rewrite existsb_app, (H1 eq_refl). apply orb_true_r.
    + destruct (Hk _ _ _ Hrun) as (evs2 & Hlog2 & H2).
      exists (evs2 ++ evs1)%list. split.
      * now rewrite Hlog2, Hlog1, app_assoc.
      * destruct r; [|exact I]. intros Hg.
        now rewrite existsb_app, (H2 Hg).
  - destruct (He _ _ _ _ Hrun) as (evs2 & Hlog2 & H2).
    exists (evs2 ++ evs1)%list. split.
    + now rewrite Hlog2, Hlog1, app_assoc.
    + destruct r; [|exact I]. intros Hg.
      now rewrite existsb_app, (H2 Hg).
Qed.

(** The handlers never report a success. *)
Lemma except_clauses_no_success P page title url e :
  only_after is_success P (except_clauses page title url e).
Proof.
  unfold only_after, except_clauses, load_global, return_error, make_shot.
  spec_auto; first [exact I | discriminate].
Qed.

(** *** The submit click *)

Lemma find_enabled_submit_family :
  spec find_enabled_submit
       (fun _ r =>
          match r with
          | Ok (Some btn) => locator_family btn = FSubmit
          | _ => True
          end).
Proof.
  unfold find_enabled_submit. eapply spec_conseq.
  - apply (spec_for_each
             (fun _ => True)
             (fun _ r =>
                match r with
                | Ok (Some btn) => locator_family btn = FSubmit
                | _ => True
                end)); [exact I | auto | |].
    + intros a b [[btn|]|e] Ha _; exact Ha.
    + intros sel Hsel. unfold try_submit_candidate, is_visible.
      destruct Hsel as [<-|[<-|[<-|[<-|[]]]]];
        spec_auto; first [exact I | reflexivity].
  - intros evs [[btn|]|e] H; exact H.
Qed.

Lemma click_and_verify_clicks btn :
  locator_family btn = FSubmit ->
  only_after (fun _ => true) submit_clicked (click_and_verify btn).
Proof.
  intros Hbtn. unfold click_and_verify.
  apply (oa_bind (fun _ => true)); [|intros []; logs_auto].
  apply spec_perform. intros [[]|e]; [|exact I].
  intros _. cbn. now rewrite Hbtn.
Qed.

Lemma submit_cycle_clicks :
  only_after returned submit_clicked submit_cycle.
Proof.
  unfold submit_cycle. apply spec_bind.
  eapply spec_conseq; [apply find_enabled_submit_family|].
  intros evs1 [[btn|]|e] H1; [| |exact I]; apply oa_older.
  - apply oa_then; [logs_auto|]. intros _.
    apply oa_then; [logs_auto|]. intros _.
    assert (Hcv : only_after returned submit_clicked (click_and_verify btn)).
    { eapply oa_good; [|apply click_and_verify_clicks, H1]. reflexivity. }
    apply oa_try_except; [exact Hcv|]. intros _.
    apply oa_then; [logs_auto|]. intros _.
    apply oa_try_except; [exact Hcv|]. intros _.
    now apply oa_ret_no.
  - apply oa_then; [logs_auto|]. intros _.
    apply oa_then; [logs_auto|]. intros _.
    now apply oa_ret_no.
Qed.

Lemma select_resume_and_submit_clicks :
  only_after (fun ok => ok) submit_clicked (select_resume_and_submit cfg).
Proof.
  unfold select_resume_and_submit.
  apply oa_then; [logs_auto|]. intros selected_exact.
  apply oa_then; [logs_auto|]. intros _.
  apply oa_then; [logs_auto|]. intros _.
  apply (oa_bind returned).
  - apply oa_for_each; [reflexivity|]. intros _ _. apply submit_cycle_clicks.
  - intros [b|]; cbn [returned]; [logs_auto|].
    apply oa_then; [logs_auto|]. intros _. now apply oa_ret_no.
Qed.

Lemma add_cover_letter_and_submit_clicks text :
  only_after (fun ok => ok) submit_clicked
             (add_cover_letter_and_submit cfg text).
Proof.
  unfold add_cover_letter_and_submit.
  apply oa_then; [logs_auto|]. intros letter_ok.
  destruct (require_cover_letter cfg && negb letter_ok).
  - apply oa_then; [logs_auto|]. intros _. now apply oa_ret_no.
  - apply select_resume_and_submit_clicks.
Qed.

Lemma process_listing_clicks title text :
  only_after is_success submit_clicked (process_listing cfg und title text).
Proof.
  unfold process_listing.
  apply oa_then; [logs_auto|]. intros [|]; [now apply oa_ret_no|].
  apply oa_then; [logs_auto|]. intros apply_btn.
  apply oa_then; [logs_auto|]. intros use_ai.
  apply oa_then; [destruct use_ai; logs_auto|]. intros with_ai.
  apply oa_then; [destruct with_ai; logs_auto|]. intros generated.
  cbv zeta.
  apply oa_then; [destruct apply_btn; logs_auto|]. intros _.
  apply (oa_bind (fun ok => ok));
    [apply add_cover_letter_and_submit_clicks|].
  intros [|]; [logs_auto | now apply oa_ret_no].
Qed.

(** The whole of [apply_to_vacancy] under a property of its results
    that the processing of the opened listing has. *)
Lemma apply_to_vacancy_only_after P url text :
  (forall title,
     only_after is_success P (process_listing cfg und title text)) ->
  only_after is_success P (apply_to_vacancy cfg und url text).
Proof.
  intros Hp. unfold apply_to_vacancy.
  apply (oa_guarded (fun _ => false));
    [apply oa_none; logs_auto | intros _
    | intros e; apply except_clauses_no_success].
  apply oa_try_finally; [|logs_auto].
  apply (oa_guarded (fun _ => false));
    [apply oa_none; logs_auto | intros _
    | intros e; apply except_clauses_no_success].
  apply (oa_guarded (fun _ => false));
    [apply oa_none; logs_auto | intros _
    | intros e; apply except_clauses_no_success].
  apply oa_then; [logs_auto|]. intros title.
  apply (oa_guarded is_success);
    [ apply Hp | intros a
    | intros e; apply except_clauses_no_success].
  destruct (is_success a) eqn:Ha; [logs_auto | now apply oa_ret_no].
Qed.

(** X22: [apply_to_vacancy] reports [SUCCESS] only after a forced click on a
    submit control has returned. *)
Theorem success_needs_submit_click (url text : string) :
  spec (apply_to_vacancy cfg und url text)
       (fun evs r =>
          forall title,
            r = Ok (SUCCESS, title) -> existsb submit_clicked evs = true).
Proof.
  eapply spec_conseq.
  - apply (apply_to_vacancy_only_after submit_clicked).
    intros title. apply process_listing_clicks.
  - intros evs r H title ->. now apply H.
Qed.

(** *** The cover letter *)

Lemma try_textarea_verified text sel :
  spec (try_textarea text sel)
       (fun evs r =>
          match r with
          | Ok (Some b) => b = true /\ written_and_read_back text evs
          | Ok None => True
          | Raise _ => False
          end).
Proof.
  unfold try_textarea, write_and_read_back, is_visible, human_pause,
    human_pause_between.
  spec_auto; try exact I.
  split; [reflexivity|]. units.
  match goal with
  | H : (_ <=? _) = true |- _ => apply Nat.leb_le in H
  end.
  do 2 eexists. split; [reflexivity | eassumption].
Qed.

Lemma written_and_read_back_older text a b :
  written_and_read_back text a -> written_and_read_back text (a ++ b).
Proof.
  intros (ta & v & Hev & Hlen). exists ta, v. split; [|exact Hlen].
  destruct a as [|e1 [|e2 [|e3 a]]]; try discriminate. exact Hev.
Qed.

Lemma fill_attempt_verified text :
  spec (fill_attempt text)
       (fun evs r =>
          match r with
          | Ok (Some b) => b = true /\ written_and_read_back text evs
          | Ok None => True
          | Raise _ => False
          end).
Proof.
  unfold fill_attempt. apply spec_bind. eapply spec_conseq.
  - apply (spec_for_each
             (fun _ => True)
             (fun evs r =>
                match r with
                | Ok (Some b) => b = true /\ written_and_read_back text evs
                | _ => False
                end)); [exact I | auto | |].
    + intros a b [[v|]|e] Ha _; try exact Ha.
      destruct Ha. split; [assumption|].
      now apply written_and_read_back_older.
    + intros sel _. eapply spec_conseq; [apply try_textarea_verified|].
      intros evs [[v|]|e] H; exact H.
  - intros evs1 [[v|]|e] H1; [| |exact H1].
    + apply spec_ret. exact H1.
    + unfold human_pause, human_pause_between. spec_auto. exact I.
Qed.

Lemma fill_verified text :
  spec (fill_cover_letter_with_verification text)
       (fun evs r =>
          exists b, r = Ok b
                    /\ (b = true -> written_and_read_back text evs)).
Proof.
  unfold fill_cover_letter_with_verification. apply spec_bind.
  eapply spec_conseq; [apply reveal_cover_letter_returns|].
  intros evs0 r ->. apply spec_bind. eapply spec_conseq.
  - apply (spec_for_each
             (fun _ => True)
             (fun evs r =>
                match r with
                | Ok (Some b) => b = true /\ written_and_read_back text evs
                | _ => False
                end)); [exact I | auto | |].
    + intros a b [[v|]|e] Ha _; try exact Ha.
      destruct Ha. split; [assumption|].
      now apply written_and_read_back_older.
    + intros i _. eapply spec_conseq; [apply fill_attempt_verified|].
      intros evs [[v|]|e] H; exact H.
  - intros evs1 [[v|]|e] H1; [| |destruct H1].
    + destruct H1 as [-> H1]. apply spec_ret. exists true.
      split; [reflexivity|]. intros _.
      now apply written_and_read_back_older.
    + apply spec_ret. exists false. split; [reflexivity | discriminate].
Qed.

(** X23: [fill_cover_letter_with_verification] never raises, and it returns
    [True] only straight after it wrote the text into a textarea, paused and
    read back from that textarea a value at least as long as the smaller of
    twenty and half the length of the text. *)
Theorem fill_cover_letter_verified (text : string) :
  spec (fill_cover_letter_with_verification text)
       (fun evs r =>
          (exists b, r = Ok b)
          /\ (r = Ok true -> written_and_read_back text evs)).
Proof.
  eapply spec_conseq; [apply fill_verified|].
  intros evs r (b & -> & H). split; [now exists b|].
  intros Hb. injection Hb as ->. now apply H.
Qed.

Lemma written_is_verified text evs :
  written_and_read_back text evs ->
  existsb (read_back_verified text) evs = true.
Proof.
  intros (ta & v & Hev & Hlen).
  destruct evs as [|e1 evs]; [discriminate|].
  injection Hev as -> _. apply Nat.leb_le in Hlen.
  change (existsb (read_back_verified text) (Called (InputValue ta) (Ok v) :: evs))
    with ((Nat.min 20 (String.length text / 2) <=? String.length (strip v))
          || existsb (read_back_verified text) evs).
  now rewrite Hlen.
Qed.

(** X24: When the cover letter is required, [add_cover_letter_and_submit]
    returns [True] only after a read-back of the textarea that passed the
    length test for the text. *)
Theorem required_letter_is_verified (text : string) :
  require_cover_letter cfg = true ->
  spec (add_cover_letter_and_submit cfg text)
       (fun evs r =>
          r = Ok true -> existsb (read_back_verified text) evs = true).
Proof.
  intros Hreq.
  assert (H : only_after (fun ok => ok) (read_back_verified text)
                         (add_cover_letter_and_submit cfg text)).
  { unfold add_cover_letter_and_submit. rewrite Hreq.
    apply (oa_bind (fun ok => ok)).
    - eapply spec_conseq; [apply fill_verified|].
      intros evs r (b & -> & Hb). intros ->.
      now apply written_is_verified, Hb.
    - intros [|]; cbn [andb negb]; [logs_auto|].
      apply oa_then; [logs_auto|]. intros _. now apply oa_ret_no. }
  eapply spec_conseq; [exact H|].
  intros evs r Hr ->. now apply Hr.
Qed.

(** *** The package as it stands *)

Lemma process_listing_as_shipped title text :
  cfg_ai und = None ->
  spec (process_listing cfg und title text)
       (fun evs r =>
          forallb (in_families [FApply; FConfirm]) evs = true
          /\ match r with
             | Ok rt => is_success rt = false
             | Raise _ => True
             end).
Proof.
  intros Hn. unfold process_listing, cfg_ai_field. rewrite Hn.
  apply spec_bind.
  eapply spec_conseq; [apply already_applied_footprint|].
  intros evs1 [[|]|e] H1; cbv beta iota.
  - apply spec_ret. split; [exact H1 | reflexivity].
  - apply spec_bind.
    eapply spec_conseq;
      [apply (only_families [FApply] [FApply; FConfirm]);
       [apply get_apply_button_footprint | reflexivity]|].
    intros evs2 [b|e] H2; cbv beta.
    + apply spec_bind, spec_raise. cbn [app]. split; [|exact I].
      now rewrite forallb_app, H2, H1.
    + split; [|exact I]. now rewrite forallb_app, H2, H1.
  - split; [exact H1 | exact I].
Qed.

Lemma only_conseq_spec {A} P (m : M A) Q :
  spec m (fun evs r => forallb P evs = true /\ Q r) -> only P m.
Proof. intros H. eapply spec_conseq; [exact H|]. now intros evs r [H1 _]. Qed.

Lemma except_clauses_shot page title url e :
  only (in_families [FShot]) (except_clauses page title url e).
Proof.
  unfold except_clauses, load_global, return_error, make_shot. only_auto.
Qed.

Lemma apply_to_vacancy_as_shipped_footprint url text :
  cfg_ai und = None ->
  only (in_families [FPage; FPause; FTitle; FApply; FConfirm; FShot])
       (apply_to_vacancy cfg und url text).
Proof.
  intros Hn.
  assert (He : forall page title e,
             only (in_families [FPage; FPause; FTitle; FApply; FConfirm; FShot])
                  (except_clauses page title url e)).
  { intros. eapply only_families; [apply except_clauses_shot | reflexivity]. }
  unfold apply_to_vacancy.
  apply only_guarded; [only_auto | intros _ | apply He].
  apply only_try_finally; [|unfold close_page; only_auto].
  apply only_guarded; [only_auto | intros _ | apply He].
  apply only_guarded; [unfold human_pause; only_auto | intros _ | apply He].
  apply only_bind; [unfold read_title; only_auto|]. intros title.
  apply only_guarded; [ | intros a; apply only_ret | apply He].
  apply (only_families [FApply; FConfirm]); [|reflexivity].
  apply (only_conseq_spec _ _
           (fun r => match r with
                     | Ok rt => is_success rt = false
                     | Raise _ => True
                     end)).
  apply process_listing_as_shipped, Hn.
Qed.

Lemma existsb_never (evs : list event) : existsb (fun _ => false) evs = false.
Proof. induction evs; auto. Qed.

(** X25: With config.py as it stands, which declares no [use_ai_cover_letter],
    [apply_to_vacancy] never reports [SUCCESS], and it makes no call of
    cover-letter filling, resume selection, consent checking or submission:
    reading the field raises once the listing is found not applied to. *)
Theorem as_shipped_never_submits (url text : string) :
  cfg_ai und = None ->
  spec (apply_to_vacancy cfg und url text)
       (fun evs r =>
          (forall title, r <> Ok (SUCCESS, title))
          /\ forallb (fun ev => negb (past_applied_check ev)) evs = true).
Proof.
  intros Hn. eapply spec_conseq.
  - apply spec_conj.
    + apply (apply_to_vacancy_only_after (fun _ => false)). intros title.
      eapply spec_conseq; [apply process_listing_as_shipped, Hn|].
      intros evs [rt|e] [_ H]; [|exact I]. intros Hg. congruence.
    + apply apply_to_vacancy_as_shipped_footprint, Hn.
  - intros evs r [H1 H2]. split.
    + intros title ->. specialize (H1 eq_refl).
      rewrite existsb_never in H1. discriminate.
    + exact (forallb_outside
               [FPage; FPause; FTitle; FApply; FConfirm; FShot]
               [FCover; FResume; FConsent; FSubmit] evs eq_refl H2).
Qed.

End Success.

Lemma required_letter_is_verified_witness :
  spec (add_cover_letter_and_submit (Wd := site_world good_site) default_cfg
          cover)
       (fun evs r =>
          r = Ok true -> existsb (read_back_verified cover) evs = true).
Proof.
  apply (required_letter_is_verified (Wd := site_world good_site) default_cfg
           cover).
  reflexivity.
Defined.

Lemma as_shipped_never_submits_witness :
  spec (apply_to_vacancy (Wd := site_world good_site) default_cfg as_shipped
          "https://hh.ru/vacancy/12345678" cover)
       (fun evs r =>
          (forall title, r <> Ok (SUCCESS, title))
          /\ forallb (fun ev => negb (past_applied_check ev)) evs = true).
Proof.
  apply (as_shipped_never_submits (Wd := site_world good_site) default_cfg
           as_shipped "https://hh.ru/vacancy/12345678" cover).
  reflexivity.
Defined.



(** *** The read-back test, on the whole of the filler *)

Section ReadBack.
Context {Wd : World}.

(** A [for] loop every turn of which logs [c] events of the kind [P] when
    it goes on. *)
Lemma spec_for_each_counted {A R} (P : event -> bool) (c : nat)
    (N : list event -> Prop) (Q : list event -> result (option R) -> Prop)
    (xs : list A) (body : A -> M (option R)) :
  N [] ->
  (forall a b, N a -> N b -> N (a ++ b)%list) ->
  (forall a b r, Q a r -> N b -> Q (a ++ b)%list r) ->
  (forall x, In x xs ->
     spec (body x)
          (fun evs r =>
             match r with
             | Ok None => N evs /\ count P evs = c
             | _ => Q evs r
             end)) ->
  spec (for_each xs body)
       (fun evs r =>
          match r with
          | Ok None => N evs /\ count P evs = length xs * c
          | _ => Q evs r
          end).
Proof.
  intros Hnil HN HQ. induction xs as [|x xs IH]; intros H; simpl.
  - apply spec_ret. now split.
  - apply spec_bind. eapply spec_conseq; [apply H; now left|].
    intros evs1 [[v|]|e] H1.
    + now apply spec_ret.
    + destruct H1 as [H1 Hc1].
      eapply spec_conseq; [apply IH; intros y Hy; apply H; now right|].
      intros evs2 [[v|]|e] H2; cbv beta; auto.
      destruct H2 as [H2 Hc2]. split; [auto|].
      rewrite count_app. lia.
    + exact H1.
Qed.

Variable text : string.

Lemma none_verified_app a b :
  none_verified text a -> none_verified text b -> none_verified text (a ++ b).
Proof. unfold none_verified. intros Ha Hb. now rewrite forallb_app, Ha, Hb. Qed.

Lemma accepting_older a b r :
  accepting text a r -> none_verified text b -> accepting text (a ++ b) r.
Proof.
  destruct r as [[v|]|e]; try easy. intros [Hv [(ta & x & Hhd & Hlen) Htl]] Hb.
  split; [exact Hv|]. destruct a as [|ev a]; [discriminate|].
  split; [now exists ta, x|]. now apply none_verified_app.
Qed.

Lemma try_textarea_read_back sel :
  In sel textarea_selectors ->
  spec (try_textarea text sel)
       (fun evs r =>
          match r with
          | Ok None => none_verified text evs /\ count textarea_probe evs = 1
          | _ => accepting text evs r
          end).
Proof.
  intros Hin.
  unfold try_textarea, write_and_read_back, is_visible, human_pause_between.
  destruct Hin as [<-|[<-|[<-|[]]]]; spec_auto; units;
    unfold accepting, accepted, none_verified, count;
    cbn [forallb List.filter length textarea_probe read_back_verified root
         negb andb app hd_error tl];
    repeat match goal with
           | H : (_ <=? _) = _ |- _ => rewrite ?H; revert H
           end; intros;
    first
      [ split; reflexivity
      | split; [reflexivity|]; split; [|reflexivity];
        do 2 eexists; split; [reflexivity|]; now apply Nat.leb_le ].
Qed.

Lemma fill_attempt_read_back :
  spec (fill_attempt text)
       (fun evs r =>
          match r with
          | Ok None =>
              (none_verified text evs
               /\ (evs = [] \/ hd_error evs = Some (Asked Sleep tt)))
              /\ count textarea_probe evs = 3
          | _ => accepting text evs r
          end).
Proof.
  unfold fill_attempt. apply spec_bind. eapply spec_conseq.
  - apply (spec_for_each_counted textarea_probe 1 (none_verified text)
             (accepting text));
      [reflexivity | exact none_verified_app | exact accepting_older |].
    intros sel Hsel. now apply try_textarea_read_back.
  - intros evs1 [[b|]|e] H1; [| |exact H1].
    + apply spec_ret. exact H1.
    + destruct H1 as [H1 Hc]. unfold human_pause_between. spec_auto.
      units.
      split; [split; [exact H1 | now right]|]. exact Hc.
Qed.

Lemma reveal_cover_letter_quiet :
  spec reveal_cover_letter
       (fun evs r =>
          r = Ok tt /\ none_verified text evs /\ count textarea_probe evs = 0).
Proof.
  unfold reveal_cover_letter, is_visible, human_pause_between.
  simpl for_each. spec_auto; repeat split.
Qed.

(** C6: [fill_cover_letter_with_verification] accepts a write exactly when
    the stripped value read back has at least [min(20, len(text) // 2)]
    characters.  It returns [True] when a read-back of its run passed that
    test, and then at once: that read-back is the newest event, and no
    earlier one passed.  When none passed, every read-back was rejected and
    the loop went on: it returns [False] after all three strategies of all
    three attempts were tried, nine waits for a textarea, and the pause that
    closes the third attempt.  It never raises. *)
Theorem C6_fill_accepts_verified_read_back :
  spec (fill_cover_letter_with_verification text)
       (fun evs r =>
          if existsb (read_back_verified text) evs
          then r = Ok true
               /\ (exists ta v,
                     hd_error evs = Some (Called (InputValue ta) (Ok v))
                     /\ Nat.min 20 (String.length text / 2)
                        <= String.length (strip v))
               /\ forallb (fun ev => negb (read_back_verified text ev))
                          (tl evs) = true
          else r = Ok false
               /\ count textarea_probe evs = 9
               /\ hd_error evs = Some (Asked Sleep tt)).
Proof.
  assert (Hnone : forall evs,
             none_verified text evs -> existsb (read_back_verified text) evs = false).
  { unfold none_verified. induction evs as [|ev evs IH]; [reflexivity|].
    cbn [forallb existsb]. intros H. apply andb_prop in H as [Hev Hevs].
    apply negb_true_iff in Hev. now rewrite Hev, IH. }
  unfold fill_cover_letter_with_verification. apply spec_bind.
  eapply spec_conseq; [apply reveal_cover_letter_quiet|].
  intros evs0 r (-> & Hq0 & Hc0). apply spec_bind. eapply spec_conseq.
  - apply (spec_for_each_counted textarea_probe 3
             (fun evs => none_verified text evs
                         /\ (evs = [] \/ hd_error evs = Some (Asked Sleep tt)))
             (accepting text)).
    + split; [reflexivity | now left].
    + intros a b [Ha Ha'] [Hb Hb']. split; [now apply none_verified_app|].
      destruct a as [|ev a]; [exact Hb'|]. right.
      destruct Ha' as [Ha'|Ha']; [discriminate | exact Ha'].
    + intros a b r0 Ha [Hb _]. now apply accepting_older.
    + intros i _. apply fill_attempt_read_back.
  - intros evs1 [[b|]|e] H1; [| |destruct H1].
    + destruct H1 as [-> [(ta & v & Hhd & Hlen) Htl]]. apply spec_ret.
      destruct evs1 as [|ev evs1]; [discriminate|].
      injection Hhd as ->. cbn [app]. cbn [existsb read_back_verified].
      apply Nat.leb_le in Hlen as Hleb. rewrite Hleb. cbn [orb].
      split; [reflexivity|]. split; [now exists ta, v|].
      cbn [tl]. now apply none_verified_app.
    + destruct H1 as [[H1 Hhd] Hc]. apply spec_ret. cbn [app].
      rewrite (Hnone _ (none_verified_app _ _ H1 Hq0)).
      split; [reflexivity|]. split; [rewrite count_app; cbn in Hc; lia|].
      destruct evs1 as [|ev evs1]; [discriminate Hc|].
      destruct Hhd as [Hhd|Hhd]; [discriminate | exact Hhd].
Qed.

End ReadBack.

(** *** A required cover letter that cannot be written, as the package stands *)

Section NoCoverLetter.
Context {Wd : World}.
Variable cfg : Config.
Variable und : Undeclared.

Lemma get_apply_button_returns :
  spec get_apply_button
       (fun evs r =>
          (exists b, r = Ok b)
          /\ forallb (in_families [FApply]) evs = true).
Proof.
  apply spec_conj; [|apply get_apply_button_footprint].
  unfold get_apply_button, is_visible. cbn [for_each].
  spec_auto; eexists; reflexivity.
Qed.

Lemma is_shot_family tag ev :
  is_shot tag ev = true -> event_family ev = FShot.
Proof.
  destruct ev as [T o r|T q v]; [destruct o|]; simpl; try discriminate.
  reflexivity.
Qed.

Lemma no_shot_among tag fs evs :
  existsb (family_eqb FShot) fs = false ->
  forallb (in_families fs) evs = true ->
  existsb (is_shot tag) evs = false.
Proof.
  intros Hfs. induction evs as [|ev evs IH]; [reflexivity|].
  cbn [forallb existsb]. intros H. apply andb_prop in H as [Hev Hevs].
  rewrite (IH Hevs), orb_false_r.
  destruct (is_shot tag ev) eqn:Hs; [|reflexivity].
  unfold in_families in Hev. rewrite (is_shot_family _ _ Hs), Hfs in Hev.
  discriminate.
Qed.

(** C7 (the code departs from it): with config.py as it stands, a listing
    that is opened and found not applied to never reaches the cover letter,
    whatever [require_cover_letter] says and whatever the page shows.  After
    the test, [apply_to_vacancy] only looks for the apply button; reading
    [cfg.use_ai_cover_letter] raises, and the [except] chain turns that into
    a [NameError], which leaves the call once the page is closed.  No
    outcome is returned, so no [ERROR], and no screenshot is taken, so none
    tagged [no_cover_letter]. *)
Theorem C7_no_cover_letter_not_reported (url text title : string)
    (s s1 s2 : state) :
  cfg_ai und = None ->
  opened url s = (Ok title, s1) ->
  already_applied s1 = (Ok false, s2) ->
  exists s' rc evs,
    apply_to_vacancy cfg und url text s
    = (Raise (NameError "TargetClosedError"), s')
    /\ log s' = (Called Close rc :: evs ++ log s2)%list
    /\ forallb (in_families [FApply]) evs = true
    /\ existsb (is_shot "no_cover_letter") (Called Close rc :: evs) = false.
Proof.
  intros Hn Hopen Happlied.
  destruct (get_apply_button s2) as [rb s3] eqn:Hb.
  destruct (get_apply_button_returns _ _ _ Hb) as (evs & Hlog & [b ->] & Hfp).
  assert (Hproc : process_listing cfg und title text s1
                  = (Raise (AttributeError "use_ai_cover_letter"), s3)).
  { unfold process_listing, cfg_ai_field, bind. rewrite Happlied, Hb, Hn.
    reflexivity. }
  destruct (close_page_log s3) as (rc & Hclose).
  exists (snd (close_page (Some ThePage) s3)), rc, evs.
  split; [|split; [|split]].
  - rewrite (apply_to_vacancy_opened cfg und url text title s s1 Hopen).
    unfold try_finally. rewrite guarded_run, Hproc.
    now rewrite except_clauses_unclassified.
  - now rewrite Hclose, Hlog.
  - exact Hfp.
  - cbn [existsb is_shot]. apply (no_shot_among _ [FApply]); [reflexivity|].
    exact Hfp.
Qed.

End NoCoverLetter.

Lemma C7_witness :
  let url := "https://hh.ru/vacancy/12345678" in
  let s := start no_textarea_site ∅ in
  let s1 := snd (opened url s) in
  let s2 := snd (already_applied s1) in
  require_cover_letter default_cfg = true
  /\ exists s' rc evs,
       apply_to_vacancy default_cfg as_shipped url cover s
       = (Raise (NameError "TargetClosedError"), s')
       /\ log s' = (Called Close rc :: evs ++ log s2)%list
       /\ forallb (in_families [FApply]) evs = true
       /\ existsb (is_shot "no_cover_letter") (Called Close rc :: evs) = false.
Proof.
  intros url s s1 s2. split; [reflexivity|].
  apply (C7_no_cover_letter_not_reported (Wd := site_world no_textarea_site)
           default_cfg as_shipped url cover "Python developer" s s1 s2);
    [reflexivity | vm_compute; reflexivity | vm_compute; reflexivity].
Defined.

End SubmissionFacts.
